(** * Polyfill mapping and npm statistics scripts: a shallow embedding

    The development follows [scripts/generate-polyfill-mappings.js] and
    [scripts/generate-npm-stats.js].  JavaScript strings are modelled as
    [string] (slugs, urls and feature ids are ASCII), a JavaScript object
    whose key order is observable as an insertion-ordered association list,
    and the statistics object, whose order no property depends on, as a
    [gmap]. *)

From Stdlib Require Import ZArith String Ascii List Bool Lia DecimalString DecimalZ.
From stdpp Require Import base list strings gmap sorting.

Local Open Scope string_scope.

(** ** JavaScript string primitives *)

Module JsString.

(** [c.toLowerCase()] on one ASCII code unit. *)
Definition lower_ascii (c : ascii) : ascii :=
  let n := nat_of_ascii c in
  if (65 <=? n)%nat && (n <=? 90)%nat then ascii_of_nat (n + 32) else c.

(** [s.toLowerCase()]. *)
Fixpoint toLowerCase (s : string) : string :=
  match s with
  | "" => ""
  | String c s' => String (lower_ascii c) (toLowerCase s')
  end.

(** [s.replace(/pat/g, rep)] for a literal, non-empty pattern: a single
    scan from the left; after a match the scan resumes behind it.  [skip]
    counts the characters of the current match still to be passed. *)
Fixpoint replaceAll_from (pat rep : string) (skip : nat) (s : string) : string :=
  match s with
  | "" => ""
  | String c s' =>
      match skip with
      | S n => replaceAll_from pat rep n s'
      | O =>
          if String.prefix pat s
          then rep ++ replaceAll_from pat rep (String.length pat - 1) s'
          else String c (replaceAll_from pat rep 0 s')
      end
  end.

Definition replaceAll (pat rep s : string) : string :=
  replaceAll_from pat rep 0 s.

(** [s.startsWith(p)]. *)
Definition startsWith (s p : string) : bool := String.prefix p s.

(** [s.endsWith(p)]. *)
Definition endsWith (s p : string) : bool :=
  let n := String.length s in
  let m := String.length p in
  (m <=? n)%nat && String.eqb (String.substring (n - m) m s) p.

(** JavaScript truthiness of a string: only the empty string is falsy. *)
Definition truthy_string (s : string) : bool := negb (String.eqb s "").

(** A string-valued expression as an [if (x)] test reads it: [null],
    [undefined] and the empty string fail the test. *)
Definition if_truthy (x : option string) : option string :=
  match x with
  | Some s => if truthy_string s then Some s else None
  | None => None
  end.

End JsString.

(** ** A small backtracking matcher for the regular expressions of the scripts *)

Module Regex.

Inductive regex : Type :=
  | Eps                                  (* the empty expression *)
  | Lit (s : string)                     (* literal characters *)
  | Plus (cls : ascii -> bool)           (* [...]+, greedy *)
  | Seq (r1 r2 : regex)                  (* r1 r2 *)
  | Opt (r : regex).                     (* (?:r)?, greedy *)

(** Matching in continuation style: [k] receives the rest of the input once
    [r] has matched a prefix of [s]; alternatives are tried in the order of
    a backtracking engine, the longer one first. *)
Fixpoint rmatch {A : Type} (r : regex) (s : string) (k : string -> option A)
  : option A :=
  match r with
  | Eps => k s
  | Lit l =>
      if String.prefix l s
      then k (String.substring (String.length l) (String.length s - String.length l) s)
      else None
  | Plus cls =>
      (fix more (t : string) : option A :=
         match t with
         | "" => None
         | String c t' =>
             if cls c
             then match more t' with
                  | Some x => Some x
                  | None => k t'
                  end
             else None
         end) s
  | Seq r1 r2 => rmatch r1 s (fun s' => rmatch r2 s' k)
  | Opt r1 =>
      match rmatch r1 s k with
      | Some x => Some x
      | None => k s
      end
  end.

(** A pattern with one capturing group: [pre (grp) ]. *)
Record pattern : Type := { pre : regex; grp : regex }.

(** The capture of an attempt anchored at the start of [s]. *)
Definition match_here (p : pattern) (s : string) : option string :=
  rmatch (pre p) s (fun s1 =>
    rmatch (grp p) s1 (fun s2 =>
      Some (String.substring 0 (String.length s1 - String.length s2) s1))).

(** [s.match(p)[1]] for a pattern without the [g] flag: the attempt at the
    leftmost start position that succeeds. *)
Fixpoint exec (p : pattern) (s : string) : option string :=
  match match_here p s with
  | Some cap => Some cap
  | None =>
      match s with
      | "" => None
      | String _ s' => exec p s'
      end
  end.

End Regex.

(** ** JavaScript objects with observable key order

    An object (and a [Map]) keeps its string keys in insertion order:
    assigning to an existing key keeps the key's position, assigning to a
    new key appends it, [delete] removes it.  Keys are feature ids, package
    urls and the like; none is an array index or a name inherited from
    [Object.prototype], so a property read is an own-property lookup. *)

Module JsObject.

Section Obj.
Context {V : Type}.

(** [o[k]]. *)
Fixpoint get (k : string) (o : list (string * V)) : option V :=
  match o with
  | [] => None
  | (k', v) :: o' => if String.eqb k' k then Some v else get k o'
  end.

(** [o[k] = v]. *)
Fixpoint set (k : string) (v : V) (o : list (string * V)) : list (string * V) :=
  match o with
  | [] => [(k, v)]
  | (k', v') :: o' =>
      if String.eqb k' k then (k, v) :: o' else (k', v') :: set k v o'
  end.

(** [delete o[k]]. *)
Fixpoint delete (k : string) (o : list (string * V)) : list (string * V) :=
  match o with
  | [] => []
  | (k', v') :: o' =>
      if String.eqb k' k then delete k o' else (k', v') :: delete k o'
  end.

(** [Object.keys(o)]. *)
Definition keys (o : list (string * V)) : list string := map fst o.

(** [Object.values(o)], [map.values()]. *)
Definition values (o : list (string * V)) : list V := map snd o.

(** [Object.fromEntries(l)], [new Map(l)], and the object [JSON.parse] builds
    from the members of an object literal: a repeated key keeps its first
    position and its last value. *)
Definition fromEntries (l : list (string * V)) : list (string * V) :=
  fold_left (fun o kv => set (fst kv) (snd kv) o) l [].

End Obj.

End JsObject.

(** ** Data model of [mappings/polyfills.json] and of the overrides file *)

Module Link.
Record t : Type := { url : string; text : string }.
End Link.

Module Fallback.
Record t : Type := {
  type : string;
  url : string;
  npm : option string;
  github : option string;
  description : option string
}.
End Fallback.

Module Feature.
Record t : Type := { fallbacks : list Fallback.t }.
End Feature.

(** An entry of [polyfills-overrides.json]; a field that is absent reads as
    [undefined], here [None]. *)
Module Override.
Record t : Type := {
  exclude : option bool;
  replace : option bool;
  fallbacks : option (list Fallback.t)
}.
End Override.

(** Truthiness of a flag that is absent, [false] or [true]. *)
Definition truthy_flag (b : option bool) : bool :=
  match b with
  | Some true => true
  | _ => false
  end.

(** What the [try] block of [main] meets when it reads the overrides file:
    [readFile] throws, [JSON.parse] throws, or the document is an object with
    the given members, in the order of the text. *)
Inductive OverridesFile : Type :=
  | Missing
  | Malformed
  | Parsed (members : list (string * Override.t)).

(** How a run of a script ends: it resolves, or an error reaches the
    [main().catch] handler, which prints it and exits with status 1. *)
Inductive outcome (A : Type) : Type :=
  | Done (a : A)
  | Fatal (msg : string).
Arguments Done {A} a.
Arguments Fatal {A} msg.

(** ** [generate-polyfill-mappings.js] *)

Module PolyfillMappings.

Import JsString Regex.

(** [slugToPath(slug)]. *)
Definition slugToPath (slug : string) : string :=
  replaceAll "*" "_star_"
    (replaceAll ":" "_colon_"
      (replaceAll "::" "_doublecolon_" (toLowerCase slug))).

(** The three replacements read as one scan of the lower-cased slug: two
    colons in a row, then a single colon, then a star give way to their
    escapes.  [slugToPath_one_scan] below proves it equal to [slugToPath]. *)
Fixpoint escapeTokens (s : string) : string :=
  match s with
  | "" => ""
  | String c s' =>
      if Ascii.eqb c ":" then
        match s' with
        | String c' s'' =>
            if Ascii.eqb c' ":" then "_doublecolon_" ++ escapeTokens s''
            else "_colon_" ++ escapeTokens s'
        | "" => "_colon_"
        end
      else if Ascii.eqb c "*" then "_star_" ++ escapeTokens s'
      else String c (escapeTokens s')
  end.

(** The class [[^\/\?#]]. *)
Definition not_slash_query_hash (c : ascii) : bool :=
  negb (Ascii.eqb c "/" || Ascii.eqb c "?" || Ascii.eqb c "#").

(** The class [[^\/]]. *)
Definition not_slash (c : ascii) : bool := negb (Ascii.eqb c "/").

(** [/npmjs\.com\/package\/(@?[^\/\?#]+(?:\/[^\/\?#]+)?)/]. *)
Definition npmPattern : pattern :=
  {| pre := Lit "npmjs.com/package/";
     grp := Seq (Opt (Lit "@"))
              (Seq (Plus not_slash_query_hash)
                 (Opt (Seq (Lit "/") (Plus not_slash_query_hash)))) |}.

(** [extractNpmPackage(url)]. *)
Definition extractNpmPackage (url : string) : option string :=
  exec npmPattern url.

(** [/github\.com\/([^\/]+\/[^\/\?#]+)/]. *)
Definition githubPattern : pattern :=
  {| pre := Lit "github.com/";
     grp := Seq (Plus not_slash) (Seq (Lit "/") (Plus not_slash_query_hash)) |}.

(** [s.replace(/\.git$/, '')]. *)
Definition dropGitSuffix (s : string) : string :=
  if endsWith s ".git" then String.substring 0 (String.length s - 4) s else s.

(** [extractGithubRepo(url)]. *)
Definition extractGithubRepo (url : string) : option string :=
  match exec githubPattern url with
  | Some repo => Some (dropGitSuffix repo)
  | None => None
  end.

(** The body of [uniqueLinks.map(link => ...)]. *)
Definition toFallback (link : Link.t) : Fallback.t :=
  {| Fallback.type := "polyfill";
     Fallback.url := Link.url link;
     Fallback.npm := if_truthy (extractNpmPackage (Link.url link));
     Fallback.github := if_truthy (extractGithubRepo (Link.url link));
     Fallback.description := if_truthy (Some (Link.text link)) |}.

(** [Array.from(new Map(links.map(link => [link.url, link])).values())]. *)
Definition uniqueLinks (links : list Link.t) : list Link.t :=
  JsObject.values (JsObject.fromEntries (map (fun link => (Link.url link, link)) links)).

Section Discovery.

(** The keys of the [web-features] catalogue in [for ... in] order. *)
Variable features : list string.
(** [getMDNSlug], the lookup in the compatibility data. *)
Variable getMDNSlug : string -> option string.
(** The polyfill links that [findPolyfills] reads in the "See also" section of
    [files/en-us/<path>/index.md]; empty when the file cannot be read or has
    no such section. *)
Variable seeAlsoPolyfills : string -> list Link.t.

(** [findPolyfills(slug)]. *)
Definition findPolyfills (slug : string) : list Link.t :=
  seeAlsoPolyfills (slugToPath slug).

(** The slugs of a feature: the remote mapping first, else the compatibility
    data. *)
Definition slugsOf (mdnDocsMapping : list (string * list string))
    (featureId : string) : list string :=
  match JsObject.get featureId mdnDocsMapping with
  | Some docs => docs
  | None =>
      match if_truthy (getMDNSlug featureId) with
      | Some slug => [slug]
      | None => []
      end
  end.

(** The fallbacks discovered for a list of slugs; [None] when no link was
    found. *)
Definition discoverFallbacks (slugs : list string) : option (list Fallback.t) :=
  match flat_map findPolyfills slugs with
  | [] => None
  | allPolyfillLinks => Some (map toFallback (uniqueLinks allPolyfillLinks))
  end.

(** One iteration of the [for (const featureId in features)] loop. *)
Definition discover (mdnDocsMapping : list (string * list string))
    (mappings : list (string * Feature.t)) (featureId : string)
  : list (string * Feature.t) :=
  match slugsOf mdnDocsMapping featureId with
  | [] => mappings
  | slugs =>
      match discoverFallbacks slugs with
      | None => mappings
      | Some fallbacks =>
          JsObject.set featureId {| Feature.fallbacks := fallbacks |} mappings
      end
  end.

(** [Object.keys(mappings).sort().reduce(...)]: the default sort compares
    code units. *)
Definition sortByFeatureId (mappings : list (string * Feature.t))
  : list (string * Feature.t) :=
  fold_left
    (fun sorted key =>
       match JsObject.get key mappings with
       | Some v => JsObject.set key v sorted
       | None => sorted
       end)
    (merge_sort String.le (JsObject.keys mappings)) [].

(** [generateMappings(mdnDocsMapping)]. *)
Definition generateMappings (mdnDocsMapping : list (string * list string))
  : list (string * Feature.t) :=
  sortByFeatureId (fold_left (discover mdnDocsMapping) features []).

(** The [try]/[catch] of [main] that loads the manual overrides. *)
Definition loadOverrides (file : OverridesFile) : list (string * Override.t) :=
  match file with
  | Parsed members =>
      JsObject.fromEntries
        (filter (fun kv => negb (startsWith (fst kv) "_"))
           (JsObject.fromEntries members))
  | Missing | Malformed => []
  end.

(** The body of the loop that merges one override entry. *)
Definition mergeOverride (mappings : list (string * Feature.t))
    (entry : string * Override.t) : list (string * Feature.t) :=
  let featureId := fst entry in
  let override := snd entry in
  if truthy_flag (Override.exclude override) then
    JsObject.delete featureId mappings
  else
    match Override.fallbacks override with
    | Some fallbacks =>
        if truthy_flag (Override.replace override) then
          JsObject.set featureId {| Feature.fallbacks := fallbacks |} mappings
        else
          match JsObject.get featureId mappings with
          | Some existing =>
              JsObject.set featureId
                {| Feature.fallbacks := Feature.fallbacks existing ++ fallbacks |}
                mappings
          | None =>
              JsObject.set featureId {| Feature.fallbacks := fallbacks |} mappings
          end
    | None => mappings
    end.

(** [for (const [featureId, override] of Object.entries(overrides))]. *)
Definition mergeOverrides (mappings : list (string * Feature.t))
    (overrides : list (string * Override.t)) : list (string * Feature.t) :=
  fold_left mergeOverride overrides mappings.

(** [main()]: the object serialised to [mappings/polyfills.json].  [fetched]
    is the remote slug mapping, [None] when the response is not ok;
    [snapshot] tells whether the documentation snapshot is present or could
    be cloned. *)
Definition main (fetched : option (list (string * list string)))
    (snapshot : bool) (file : OverridesFile)
  : outcome (list (string * Feature.t)) :=
  match fetched with
  | None => Fatal "Failed to fetch MDN docs mapping"
  | Some mdnDocsMapping =>
      if snapshot then
        Done (mergeOverrides (generateMappings mdnDocsMapping) (loadOverrides file))
      else Fatal "git clone failed"
  end.

End Discovery.

End PolyfillMappings.

(** ** [generate-npm-stats.js] *)

Module NpmStats.

Import JsString.

Local Open Scope Z_scope.

Definition DELAY_MS : Z := 750.
Definition MAX_RETRIES : nat := 2.
Definition ONE_WEEK_MS : Z := 7 * 24 * 60 * 60 * 1000.

(** A record of [mappings/npm-stats.json]: [downloads] is a number or
    [null]; a record may lack [lastModified]. *)
Record StatsEntry : Type := {
  downloads : option Z;
  lastModified : option string
}.

(** A value of the statistics object: a record, or, in a file written
    before timestamps were recorded, the weekly count itself.  The object is
    a finite map from package names to such values; package names are taken
    not to be names of members of [Object.prototype] (such as
    [constructor]), under which [stats[packageName]] reads the inherited
    member. *)
Inductive StatsValue : Type :=
  | Legacy (count : Z)
  | Entry (entry : StatsEntry).

(** Truthiness of a value: an object is truthy, a number unless it is 0. *)
Definition truthy_value (value : StatsValue) : bool :=
  match value with
  | Legacy count => negb (count =? 0)
  | Entry _ => true
  end.

(** [!stats[packageName]]. *)
Definition falsy (value : option StatsValue) : bool :=
  match value with
  | Some value => negb (truthy_value value)
  | None => true
  end.

(** [value.lastModified]; a number has no such property. *)
Definition lastModifiedOf (value : StatsValue) : option string :=
  match value with
  | Legacy _ => None
  | Entry entry => lastModified entry
  end.

(** The [downloads] member of a document, and what a call of
    [fetchPackageStats] resolves to: [undefined], [null] or a count. *)
Inductive Downloads : Type :=
  | Undefined
  | Null
  | Count (count : Z).

(** The body of a response: [response.json()] rejects, or it yields a
    document, of which [data.downloads] is read ([Undefined] when the
    document has no such member). *)
Inductive Body : Type :=
  | Unreadable
  | Document (downloads : Downloads).

(** What one request to the downloads API yields: [fetch] rejects, or a
    response with a status and a body. *)
Inductive Response : Type :=
  | NetworkError
  | Http (status : Z) (body : Body).

(** [response.ok]. *)
Definition ok (status : Z) : bool := (200 <=? status) && (status <=? 299).

(** [delay(ms)] on the clock of the run. *)
Definition delay (ms : Z) (clock : Z) : Z := clock + ms.

(** [fetchPackageStats(packageName, retryCount)] against the responses the
    registry gives to the successive requests; the result is the value the
    promise resolves to and the clock afterwards.  With no response left the
    request itself fails.  Whatever is thrown inside the [try] is caught and
    gives [null]. *)
Fixpoint fetchPackageStats (responses : list Response) (retryCount : nat)
    (clock : Z) : Downloads * Z :=
  match responses with
  | [] => (Null, clock)
  | NetworkError :: _ => (Null, clock)
  | Http status body :: later =>
      if status =? 404 then (Null, clock)
      else if (status =? 429) && (retryCount <? MAX_RETRIES)%nat then
        let waitTime := DELAY_MS * (Z.of_nat retryCount + 2) in
        fetchPackageStats later (retryCount + 1) (delay waitTime clock)
      else if negb (ok status) then (Null, clock)
      else
        match body with
        | Unreadable => (Null, clock)
        | Document downloads => (downloads, clock)
        end
  end.

Section Run.

(** [FORCE_REFRESH]: [--force] or [-f] is among the arguments. *)
Variable FORCE_REFRESH : bool.
(** [new Date(s).getTime()], [None] for an invalid date. *)
Variable Date_parse : string -> option Z.
(** [new Date(t).toISOString()]. *)
Variable toISOString : Z -> string.
(** The responses of the registry to the successive requests for a package
    name; the packages of a run are the members of a set, so that each name
    is asked for in one call. *)
Variable npmApi : string -> list Response.

(** [needsRefresh(packageName, existingStats)], with [now] the reading of
    the clock.  An invalid date makes [timeDiff] NaN, and NaN is not greater
    than [ONE_WEEK_MS]. *)
Definition needsRefresh (now : Z) (packageName : string)
    (existingStats : gmap string StatsValue) : bool :=
  if FORCE_REFRESH then true
  else if falsy (existingStats !! packageName) then true
  else
    match existingStats !! packageName with
    | None => true
    | Some value =>
        match if_truthy (lastModifiedOf value) with
        | None => true
        | Some stamp =>
            match Date_parse stamp with
            | Some lastModified => now - lastModified >? ONE_WEEK_MS
            | None => false
            end
        end
    end.

(** The body of [for (const packageName of packagesToRefresh)]: the state is
    the [stats] object, the counter [processed] and the clock; [total] is
    [packagesToRefresh.length].  [undefined] is not [null], so it takes the
    first branch, where [downloads.toLocaleString()] throws a TypeError: the
    promise of [fetchAllStats] rejects and the [stats] object is lost. *)
Definition refreshOne (total : nat)
    (state : gmap string StatsValue * nat * Z) (packageName : string)
  : outcome (gmap string StatsValue * nat * Z) :=
  let '(stats, processed, clock) := state in
  let '(result, clock) := fetchPackageStats (npmApi packageName) 0 clock in
  let written :=
    match result with
    | Count count =>
        Done (<[packageName :=
                  Entry {| downloads := Some count;
                           lastModified := Some (toISOString clock) |}]> stats)
    | Undefined =>
        Fatal "TypeError: Cannot read properties of undefined (reading 'toLocaleString')"
    | Null =>
        if falsy (stats !! packageName) then
          Done (<[packageName :=
                    Entry {| downloads := None;
                             lastModified := Some (toISOString clock) |}]> stats)
        else Done stats
    end in
  match written with
  | Done stats =>
      let processed := S processed in
      let clock := if (processed <? total)%nat then delay DELAY_MS clock else clock in
      Done (stats, processed, clock)
  | Fatal msg => Fatal msg
  end.

(** The loop: it ends with the first step that throws. *)
Fixpoint refreshEach (total : nat) (stale : list string)
    (state : gmap string StatsValue * nat * Z)
  : outcome (gmap string StatsValue * nat * Z) :=
  match stale with
  | [] => Done state
  | packageName :: rest =>
      match refreshOne total state packageName with
      | Done state => refreshEach total rest state
      | Fatal msg => Fatal msg
      end
  end.

(** [packagesToRefresh]. *)
Definition packagesToRefresh (now : Z) (packages : list string)
    (existingStats : gmap string StatsValue) : list string :=
  filter (fun pkg => Is_true (needsRefresh now pkg existingStats)) packages.

(** [fetchAllStats(packages, existingStats)], started when the clock reads
    [now]: the [stats] object it resolves to, or the error it rejects
    with. *)
Definition fetchAllStats (now : Z) (packages : list string)
    (existingStats : gmap string StatsValue) : outcome (gmap string StatsValue) :=
  let stale := packagesToRefresh now packages existingStats in
  match stale with
  | [] => Done existingStats
  | _ =>
      match refreshEach (length stale) stale (existingStats, 0%nat, now) with
      | Done (stats, _, _) => Done stats
      | Fatal msg => Fatal msg
      end
  end.

End Run.

End NpmStats.

(** ** [getMDNSlug]: the lookup in the compatibility data

    The compatibility data is a tree of identifiers; an identifier may carry
    a [__compat] statement and has sub-identifiers under their names.  A
    catalogue entry lists the compatibility keys of a feature. *)

Module CompatData.

Import JsString Regex.

Record WebFeature : Type := { compat_features : option (list string) }.

Record CompatStatement : Type := { mdn_url : option string }.

#[local] Unset Elimination Schemes.
Inductive Identifier : Type :=
  | Ident (statement : option CompatStatement)
          (subfeatures : list (string * Identifier)).
#[local] Set Elimination Schemes.

Definition compat (data : Identifier) : option CompatStatement :=
  match data with
  | Ident statement _ => statement
  end.

Definition subfeatures (data : Identifier) : list (string * Identifier) :=
  match data with
  | Ident _ subs => subs
  end.

(** [s.split(sep)] for a separator of one character. *)
Fixpoint split (sep : ascii) (s : string) : list string :=
  match s with
  | "" => [""]
  | String c s' =>
      if Ascii.eqb c sep then "" :: split sep s'
      else
        match split sep s' with
        | [] => [String c ""]
        | word :: words => String c word :: words
        end
  end.

(** [data?.[part]] as far as the loop can go on with it: a path that enters
    a [__compat] statement, or leaves the tree, ends without a documentation
    url, as a missing part does. *)
Definition property (part : string) (data : Identifier) : option Identifier :=
  if String.eqb part "__compat" then None
  else JsObject.get part (subfeatures data).

(** [for (const part of parts) { data = data?.[part]; if (!data) return null; }]. *)
Fixpoint walk (parts : list string) (data : Identifier) : option Identifier :=
  match parts with
  | [] => Some data
  | part :: rest =>
      match property part data with
      | Some child => walk rest child
      | None => None
      end
  end.

(** [/^https:\/\/developer\.mozilla\.org\/(en-US\/)?docs\//]. *)
Definition docsPrefix : regex :=
  Seq (Lit "https://developer.mozilla.org/")
    (Seq (Opt (Lit "en-US/")) (Lit "docs/")).

(** [url.replace(/^https:\/\/developer\.mozilla\.org\/(en-US\/)?docs\//, '')]:
    the expression is anchored, so it is tried at the start only. *)
Definition stripDocsPrefix (url : string) : string :=
  match rmatch docsPrefix url (fun rest => Some rest) with
  | Some rest => rest
  | None => url
  end.

(** [getMDNSlug(featureId)] over the catalogue [features] and the data
    [bcd]. *)
Definition getMDNSlug (features : list (string * WebFeature)) (bcd : Identifier)
    (featureId : string) : option string :=
  match JsObject.get featureId features with
  | None => None
  | Some feature =>
      match compat_features feature with
      | Some (bcdKey :: _) =>
          if truthy_string bcdKey then
            match walk (split "." bcdKey) bcd with
            | Some data =>
                match compat data with
                | Some statement =>
                    match if_truthy (mdn_url statement) with
                    | Some url => Some (stripDocsPrefix url)
                    | None => None
                    end
                | None => None
                end
            | None => None
            end
          else None
      | Some [] | None => None
      end
  end.

End CompatData.

(** ** [extractNpmPackages] of [generate-npm-stats.js] *)

Module StatsInput.

Import JsString.

(** [packages.add(name)] on a [Set], which keeps insertion order. *)
Definition setAdd (name : string) (packages : list string) : list string :=
  if decide (name ∈ packages) then packages else (packages ++ [name])%list.

(** The inner loop: [for (const fallback of feature.fallbacks)]. *)
Definition addPackages (packages : list string) (feature : Feature.t) : list string :=
  fold_left
    (fun packages fallback =>
       match if_truthy (Fallback.npm fallback) with
       | Some name => setAdd name packages
       | None => packages
       end)
    (Feature.fallbacks feature) packages.

(** [extractNpmPackages(polyfillMappings)]. *)
Definition extractNpmPackages (polyfillMappings : list (string * Feature.t))
  : list string :=
  merge_sort String.le
    (fold_left addPackages (JsObject.values polyfillMappings) []).

End StatsInput.

(** ** [escapeHtml] of the explorer page generator *)

Module Explorer.

Import JsString.

(** The double quote, character 34. *)
Definition dquote : string := String "034"%char "".

(** [escapeHtml(text)]; [text] is [None] for [undefined] and [null]. *)
Definition escapeHtml (text : option string) : string :=
  match if_truthy text with
  | None => ""
  | Some t =>
      replaceAll "'" "&#039;"
        (replaceAll dquote "&quot;"
           (replaceAll ">" "&gt;"
              (replaceAll "<" "&lt;"
                 (replaceAll "&" "&amp;" t))))
  end.

End Explorer.

(** ** Sample inputs

    A small catalogue, a documentation snapshot and an overrides file, used
    to run the scripts on concrete data. *)

Module Samples.

Import NpmStats.

Definition catalog : list string := ["intersection-observer"; "array-group"].

Definition mdnDocsMapping : list (string * list string) :=
  [("intersection-observer",
    ["Web/API/Intersection_Observer_API"; "Web/API/IntersectionObserver"])].

Definition getMDNSlug (featureId : string) : option string := None.

Definition npmLink : Link.t :=
  {| Link.url := "https://www.npmjs.com/package/intersection-observer";
     Link.text := "A polyfill for IntersectionObserver" |}.

Definition githubLink : Link.t :=
  {| Link.url := "https://github.com/GoogleChromeLabs/intersection-observer";
     Link.text := "IntersectionObserver polyfill" |}.

(** Both pages of the feature link to the npm package. *)
Definition seeAlsoPolyfills (path : string) : list Link.t :=
  if String.eqb path "web/api/intersection_observer_api" then [npmLink; githubLink]
  else if String.eqb path "web/api/intersectionobserver" then [npmLink]
  else [].

Definition npmFallback : Fallback.t :=
  {| Fallback.type := "polyfill";
     Fallback.url := "https://www.npmjs.com/package/intersection-observer";
     Fallback.npm := Some "intersection-observer";
     Fallback.github := None;
     Fallback.description := Some "A polyfill for IntersectionObserver" |}.

Definition githubFallback : Fallback.t :=
  {| Fallback.type := "polyfill";
     Fallback.url := "https://github.com/GoogleChromeLabs/intersection-observer";
     Fallback.npm := None;
     Fallback.github := Some "GoogleChromeLabs/intersection-observer";
     Fallback.description := Some "IntersectionObserver polyfill" |}.

Definition otherFallback : Fallback.t :=
  {| Fallback.type := "polyfill";
     Fallback.url := "https://other.example/polyfill";
     Fallback.npm := None;
     Fallback.github := None;
     Fallback.description := None |}.

(** What auto-discovery finds on the sample snapshot. *)
Definition discovered : list (string * Feature.t) :=
  [("intersection-observer",
    {| Feature.fallbacks := [npmFallback; githubFallback] |})].

(** An entry that sets every field at once. *)
Definition excludeAll : Override.t :=
  {| Override.exclude := Some true;
     Override.replace := Some true;
     Override.fallbacks := Some [otherFallback] |}.

(** "Confirmed: no polyfill exists". *)
Definition replaceByNone : Override.t :=
  {| Override.exclude := None;
     Override.replace := Some true;
     Override.fallbacks := Some [] |}.

(** An entry in the default mode, which repeats a url already discovered. *)
Definition augment : Override.t :=
  {| Override.exclude := None;
     Override.replace := None;
     Override.fallbacks := Some [otherFallback; npmFallback] |}.

(** An overrides file that adds a feature auto-discovery did not find. *)
Definition addsFeature : OverridesFile :=
  Parsed [("_comment", excludeAll); ("abortable-fetch", augment)].

(** Existing statistics: one record, fetched at the epoch. *)
Definition existingStats : gmap string StatsValue :=
  {[ "intersection-observer" :=
       Entry {| downloads := Some 1200%Z;
                lastModified := Some "1970-01-01T00:00:00.000Z" |} ]}.

(** Statistics written before timestamps were recorded: bare counts, one of
    them 0. *)
Definition legacyStats : gmap string StatsValue :=
  {[ "intersection-observer" := Legacy 1200%Z;
     "scheduler-polyfill" := Legacy 0%Z ]}.

Definition Date_parse (stamp : string) : option Z :=
  if String.eqb stamp "1970-01-01T00:00:00.000Z" then Some 0%Z else None.

Definition toISOString (t : Z) : string := "2025-11-10T00:00:00.000Z".

(** The registry does not know any package. *)
Definition npmApi (packageName : string) : list Response :=
  [Http 404 (Document Undefined)].

(** An entry that asks to replace and gives nothing to replace by. *)
Definition replaceWithoutList : Override.t :=
  {| Override.exclude := None;
     Override.replace := Some true;
     Override.fallbacks := None |}.

(** An overrides file that rewrites a discovered feature only. *)
Definition rewritesFeature : OverridesFile :=
  Parsed [("_comment", excludeAll); ("intersection-observer", augment)].

(** A catalogue entry and the compatibility data it points into. *)
Definition webFeatures : list (string * CompatData.WebFeature) :=
  [("intersection-observer",
    {| CompatData.compat_features := Some ["api.IntersectionObserver"] |})].

Definition compatTree (url : string) : CompatData.Identifier :=
  CompatData.Ident None
    [("api",
      CompatData.Ident None
        [("IntersectionObserver",
          CompatData.Ident (Some {| CompatData.mdn_url := Some url |}) [])])].

(** Timestamps written as a mark and the decimal digits of the clock, and
    read back. *)
Definition stamp (t : Z) : string :=
  String "T" (NilEmpty.string_of_int (Z.to_int t)).

Definition readStamp (s : string) : option Z :=
  match s with
  | String c digits =>
      if Ascii.eqb c "T" then
        match NilEmpty.int_of_string digits with
        | Some d => Some (Z.of_int d)
        | None => None
        end
      else None
  | "" => None
  end.

(** A registry that knows one package and limits the rate of the first
    request. *)
Definition busyApi (packageName : string) : list Response :=
  if String.eqb packageName "intersection-observer"
  then [Http 429 Unreadable; Http 200 (Document (Count 5300%Z))]
  else [Http 404 (Document Undefined)].

(** A registry that answers every request with a document that has no
    [downloads] member. *)
Definition emptyApi (packageName : string) : list Response :=
  [Http 200 (Document Undefined)].

End Samples.

(** * Properties *)

(** ** Objects: reads after writes, and the order of keys *)

Section JsObjectFacts.
Context {V : Type}.
Implicit Types (o : list (string * V)) (k : string) (v : V).

Import JsObject.

Lemma get_set_eq k v o : get k (set k v o) = Some v.
Proof.
  induction o as [|[k' v'] o IH]; simpl.
  - now rewrite String.eqb_refl.
  - destruct (String.eqb_spec k' k) as [->|Hne]; simpl.
    + now rewrite String.eqb_refl.
    + destruct (String.eqb_spec k' k); [contradiction|exact IH].
Qed.

Lemma get_set_ne k k' v o : k <> k' -> get k (set k' v o) = get k o.
Proof.
  intros Hne. induction o as [|[k1 v1] o IH]; simpl.
  - destruct (String.eqb_spec k' k); [congruence|reflexivity].
  - destruct (String.eqb_spec k1 k') as [->|Hne1]; simpl.
    + destruct (String.eqb_spec k' k); [congruence|reflexivity].
    + now rewrite IH.
Qed.

Lemma get_delete_eq k o : get k (delete k o) = None.
Proof.
  induction o as [|[k' v'] o IH]; simpl; [reflexivity|].
  destruct (String.eqb_spec k' k) as [->|Hne]; simpl; [exact IH|].
  destruct (String.eqb_spec k' k); [contradiction|exact IH].
Qed.

Lemma get_delete_ne k k' o : k <> k' -> get k (delete k' o) = get k o.
Proof.
  intros Hne. induction o as [|[k1 v1] o IH]; simpl; [reflexivity|].
  destruct (String.eqb_spec k1 k') as [->|Hne1]; simpl.
  - destruct (String.eqb_spec k' k); [congruence|exact IH].
  - now rewrite IH.
Qed.

Lemma get_None_keys k o : get k o = None <-> k ∉ keys o.
Proof.
  unfold keys. induction o as [|[k' v'] o IH]; simpl.
  - split; [intros _; apply not_elem_of_nil|reflexivity].
  - rewrite not_elem_of_cons.
    destruct (String.eqb_spec k' k) as [->|Hne].
    + split; [discriminate|intros [? _]; congruence].
    + rewrite IH. split; [intros ?; split; congruence|intros [_ ?]; assumption].
Qed.

Lemma get_Some_elem k v o : get k o = Some v -> (k, v) ∈ o.
Proof.
  induction o as [|[k' v'] o IH]; simpl; [discriminate|].
  destruct (String.eqb_spec k' k) as [->|Hne].
  - intros [= ->]. apply list_elem_of_here.
  - intros H. apply list_elem_of_further, IH, H.
Qed.

Lemma elem_get_NoDup k v o : NoDup (keys o) -> (k, v) ∈ o -> get k o = Some v.
Proof.
  unfold keys. induction o as [|[k' v'] o IH]; simpl; intros Hnd Hin.
  - now apply elem_of_nil in Hin.
  - apply NoDup_cons in Hnd as [Hk' Hnd].
    apply elem_of_cons in Hin as [[= -> ->]|Hin].
    + now rewrite String.eqb_refl.
    + destruct (String.eqb_spec k' k) as [->|Hne]; [|now apply IH].
      exfalso. apply Hk'. apply (list_elem_of_fmap_2 fst) in Hin. exact Hin.
Qed.

(** Assigning to a key that is present leaves the order of keys alone;
    assigning to a new key appends it. *)
Lemma keys_set_present k v o : k ∈ keys o -> keys (set k v o) = keys o.
Proof.
  unfold keys. induction o as [|[k' v'] o IH]; simpl; intros Hin.
  - now apply elem_of_nil in Hin.
  - destruct (String.eqb_spec k' k) as [->|Hne]; simpl; [reflexivity|].
    apply elem_of_cons in Hin as [->|Hin]; [contradiction|].
    now rewrite IH.
Qed.

Lemma keys_set_absent k v o : k ∉ keys o -> keys (set k v o) = (keys o ++ [k])%list.
Proof.
  unfold keys. induction o as [|[k' v'] o IH]; simpl; intros Hin; [reflexivity|].
  apply not_elem_of_cons in Hin as [Hne Hin].
  destruct (String.eqb_spec k' k) as [->|_]; [contradiction|].
  simpl. now rewrite IH.
Qed.

Lemma keys_delete k o : keys (delete k o) = filter (fun k' => k' <> k) (keys o).
Proof.
  unfold keys. induction o as [|[k' v'] o IH]; simpl; [reflexivity|].
  destruct (String.eqb_spec k' k) as [->|Hne].
  - rewrite filter_cons_False by (intros H; now apply H). exact IH.
  - rewrite filter_cons_True by assumption. simpl. now rewrite IH.
Qed.

Lemma NoDup_keys_set k v o : NoDup (keys o) -> NoDup (keys (set k v o)).
Proof.
  intros Hnd. destruct (decide (k ∈ keys o)) as [Hin|Hin].
  - now rewrite keys_set_present.
  - rewrite keys_set_absent by assumption.
    apply NoDup_app. split; [assumption|]. split.
    + intros x Hx Hx'. apply list_elem_of_singleton in Hx'. now subst.
    + apply NoDup_singleton.
Qed.

Lemma NoDup_keys_delete k o : NoDup (keys o) -> NoDup (keys (delete k o)).
Proof. intros Hnd. rewrite keys_delete. now apply NoDup_filter. Qed.

Lemma NoDup_keys_fold_set (l : list (string * V)) o :
  NoDup (keys o) ->
  NoDup (keys (fold_left (fun o kv => set (fst kv) (snd kv) o) l o)).
Proof.
  revert o. induction l as [|kv l IH]; simpl; intros o Hnd; [assumption|].
  apply IH, NoDup_keys_set, Hnd.
Qed.

Lemma NoDup_keys_fromEntries (l : list (string * V)) : NoDup (keys (fromEntries l)).
Proof. apply NoDup_keys_fold_set. apply NoDup_nil_2. Qed.

End JsObjectFacts.

(** ** The merge of the manual overrides *)

Section MergeFacts.

Import JsObject PolyfillMappings.
Implicit Types (mappings auto : list (string * Feature.t))
  (overrides : list (string * Override.t)) (k : string) (ov : Override.t).

(** An override entry only touches the feature it names. *)
Lemma mergeOverride_other mappings k k' ov :
  k <> k' -> get k (mergeOverride mappings (k', ov)) = get k mappings.
Proof.
  intros Hne. unfold mergeOverride; simpl.
  destruct (truthy_flag (Override.exclude ov)); [now apply get_delete_ne|].
  destruct (Override.fallbacks ov) as [F|]; [|reflexivity].
  destruct (truthy_flag (Override.replace ov)); [now apply get_set_ne|].
  destruct (get k' mappings); now apply get_set_ne.
Qed.

(** What an entry does to its feature depends on that feature's record
    alone. *)
Lemma mergeOverride_local mappings mappings' k ov :
  get k mappings = get k mappings' ->
  get k (mergeOverride mappings (k, ov)) = get k (mergeOverride mappings' (k, ov)).
Proof.
  intros Heq. unfold mergeOverride; simpl.
  destruct (truthy_flag (Override.exclude ov)); [now rewrite !get_delete_eq|].
  destruct (Override.fallbacks ov) as [F|]; [|assumption].
  destruct (truthy_flag (Override.replace ov)); [now rewrite !get_set_eq|].
  rewrite <- Heq. destruct (get k mappings); now rewrite !get_set_eq.
Qed.

Lemma mergeOverrides_untouched overrides mappings k :
  k ∉ keys overrides -> get k (mergeOverrides mappings overrides) = get k mappings.
Proof.
  unfold mergeOverrides, keys.
  revert mappings. induction overrides as [|[k' ov] overrides IH]; simpl; intros mappings Hk.
  - reflexivity.
  - apply not_elem_of_cons in Hk as [Hne Hk].
    rewrite IH by assumption. now apply mergeOverride_other.
Qed.

(** With one entry per feature id, the merged record of a feature is the
    one its own entry produces from the auto-discovered mapping. *)
Lemma mergeOverrides_at overrides mappings k ov :
  NoDup (keys overrides) -> get k overrides = Some ov ->
  get k (mergeOverrides mappings overrides) = get k (mergeOverride mappings (k, ov)).
Proof.
  unfold mergeOverrides, keys.
  revert mappings. induction overrides as [|[k' ov'] overrides IH]; simpl;
    intros mappings Hnd Hget; [discriminate|].
  apply NoDup_cons in Hnd as [Hk' Hnd].
  destruct (String.eqb_spec k' k) as [->|Hne].
  - injection Hget as ->.
    now apply (mergeOverrides_untouched overrides).
  - rewrite IH by assumption.
    apply mergeOverride_local. apply mergeOverride_other. congruence.
Qed.

(** The overrides object has one entry per key, whatever the file holds. *)
Lemma NoDup_keys_loadOverrides file : NoDup (keys (loadOverrides file)).
Proof.
  destruct file; simpl; try apply NoDup_nil_2. apply NoDup_keys_fromEntries.
Qed.

(** Keys that start with an underscore never reach the merge. *)
Lemma loadOverrides_no_underscore file k ov :
  get k (loadOverrides file) = Some ov -> JsString.startsWith k "_" = false.
Proof.
  destruct file as [| |members]; simpl; try discriminate.
  intros Hget. apply get_Some_elem in Hget.
  assert (Hinv : forall (l acc : list (string * Override.t)),
             Forall (fun kv => JsString.startsWith (fst kv) "_" = false) l ->
             Forall (fun kv => JsString.startsWith (fst kv) "_" = false) acc ->
             Forall (fun kv => JsString.startsWith (fst kv) "_" = false)
               (fold_left (fun o kv => set (fst kv) (snd kv) o) l acc)).
  { induction l as [|kv l IH]; simpl; intros acc Hl Hacc; [assumption|].
    apply Forall_cons in Hl as [Hkv Hl]. apply IH; [assumption|].
    clear -Hkv Hacc. induction acc as [|[k1 v1] acc IHacc]; simpl.
    - constructor; [exact Hkv|constructor].
    - apply Forall_cons in Hacc as [H1 Hacc].
      destruct (String.eqb_spec k1 (fst kv)).
      + constructor; assumption.
      + constructor; [assumption|now apply IHacc]. }
  unfold fromEntries at 1 in Hget.
  eapply Forall_forall in Hget.
  2:{ apply Hinv; [|constructor].
      apply Forall_forall. intros kv Hkv. apply list_elem_of_filter in Hkv as [Hkv _].
      destruct (JsString.startsWith (fst kv) "_"); [contradiction|reflexivity]. }
  exact Hget.
Qed.

(** With no override the auto-discovered mapping is the result. *)
Lemma mergeOverrides_nil mappings : mergeOverrides mappings [] = mappings.
Proof. reflexivity. Qed.

(** The object [main] writes, when nothing fatal happens. *)
Lemma main_Done features getMDNSlug seeAlso mdnDocsMapping file :
  main features getMDNSlug seeAlso (Some mdnDocsMapping) true file =
  Done (mergeOverrides (generateMappings features getMDNSlug seeAlso mdnDocsMapping)
          (loadOverrides file)).
Proof. reflexivity. Qed.

(** C1. A feature id whose override entry has [exclude: true] is absent from
    the merged mapping, whatever auto-discovery found for it and whatever
    [replace] flag or [fallbacks] list the same entry carries. *)
Theorem exclude_removes_feature auto file k ov :
  get k (loadOverrides file) = Some ov ->
  Override.exclude ov = Some true ->
  get k (mergeOverrides auto (loadOverrides file)) = None /\
  k ∉ keys (mergeOverrides auto (loadOverrides file)).
Proof.
  intros Hget Hex.
  assert (H : get k (mergeOverrides auto (loadOverrides file)) = None).
  { rewrite (mergeOverrides_at _ _ _ ov (NoDup_keys_loadOverrides file) Hget).
    unfold mergeOverride; simpl. rewrite Hex; simpl. apply get_delete_eq. }
  split; [exact H|now apply get_None_keys].
Qed.

(** C2. With [replace: true], a [fallbacks] list [F] and no [exclude], the
    merged record of the feature holds exactly [F], in order, also when [F] is
    empty: what auto-discovery found is dropped. *)
Theorem replace_sets_exactly auto file k ov F :
  get k (loadOverrides file) = Some ov ->
  truthy_flag (Override.exclude ov) = false ->
  Override.replace ov = Some true ->
  Override.fallbacks ov = Some F ->
  get k (mergeOverrides auto (loadOverrides file)) = Some {| Feature.fallbacks := F |}.
Proof.
  intros Hget Hex Hrep HF.
  rewrite (mergeOverrides_at _ _ _ ov (NoDup_keys_loadOverrides file) Hget).
  unfold mergeOverride; simpl. rewrite Hex, HF, Hrep; simpl. apply get_set_eq.
Qed.

(** C3. With neither [exclude] nor [replace] and a [fallbacks] list [F]: an
    auto-discovered list [A] becomes [A ++ F], nothing of [F] being dropped
    for a url that [A] has already; without an auto-discovered entry the
    feature gets a new record holding exactly [F]. *)
Theorem augment_appends auto file k ov F :
  get k (loadOverrides file) = Some ov ->
  truthy_flag (Override.exclude ov) = false ->
  truthy_flag (Override.replace ov) = false ->
  Override.fallbacks ov = Some F ->
  (forall A, get k auto = Some A ->
     get k (mergeOverrides auto (loadOverrides file)) =
     Some {| Feature.fallbacks := (Feature.fallbacks A ++ F)%list |}) /\
  (get k auto = None ->
     get k (mergeOverrides auto (loadOverrides file)) =
     Some {| Feature.fallbacks := F |}).
Proof.
  intros Hget Hex Hrep HF.
  rewrite (mergeOverrides_at _ _ _ ov (NoDup_keys_loadOverrides file) Hget).
  unfold mergeOverride; simpl. rewrite Hex, HF, Hrep; simpl.
  split.
  - intros A HA. rewrite HA. apply get_set_eq.
  - intros HA. rewrite HA. apply get_set_eq.
Qed.

End MergeFacts.

(** ** Auto-discovery: unique urls and sorted keys *)

Section DiscoveryFacts.

Import JsObject PolyfillMappings.

Variable features : list string.
Variable getMDNSlug : string -> option string.
Variable seeAlsoPolyfills : string -> list Link.t.
Implicit Types (mappings : list (string * Feature.t)).

Lemma Forall_values_set {V : Type} (Q : V -> Prop) k v (o : list (string * V)) :
  Forall (fun kv => Q (snd kv)) o -> Q v -> Forall (fun kv => Q (snd kv)) (set k v o).
Proof.
  intros Ho Hv. induction o as [|[k' v'] o IH]; simpl.
  - constructor; [exact Hv|constructor].
  - apply Forall_cons in Ho as [Hv' Ho].
    destruct (String.eqb k' k); constructor; auto.
Qed.

Lemma Forall_keyed_set {V : Type} (f : V -> string) k v (o : list (string * V)) :
  Forall (fun kv => fst kv = f (snd kv)) o -> k = f v ->
  Forall (fun kv => fst kv = f (snd kv)) (set k v o).
Proof.
  intros Ho Hv. induction o as [|[k' v'] o IH]; simpl.
  - constructor; [exact Hv|constructor].
  - apply Forall_cons in Ho as [Hv' Ho].
    destruct (String.eqb k' k); constructor; auto.
Qed.

(** Each value of the [Map] of links sits under its own url. *)
Lemma links_keyed (links : list Link.t) (acc : list (string * Link.t)) :
  Forall (fun kv => fst kv = Link.url (snd kv)) acc ->
  Forall (fun kv => fst kv = Link.url (snd kv))
    (fold_left (fun o kv => set (fst kv) (snd kv) o)
       (map (fun link => (Link.url link, link)) links) acc).
Proof.
  revert acc. induction links as [|l links IH]; simpl; intros acc Hacc; [assumption|].
  apply IH. now apply Forall_keyed_set.
Qed.

Lemma uniqueLinks_NoDup (links : list Link.t) :
  NoDup (map Link.url (uniqueLinks links)).
Proof.
  unfold uniqueLinks, values.
  set (o := fromEntries _).
  assert (Hkeyed : Forall (fun kv => fst kv = Link.url (snd kv)) o).
  { apply links_keyed. constructor. }
  assert (Hnd : NoDup (keys o)) by apply NoDup_keys_fromEntries.
  replace (map Link.url (map snd o)) with (keys o); [exact Hnd|].
  unfold keys. clear Hnd. induction Hkeyed as [|kv o' Hkv _ IH]; simpl; [reflexivity|].
  now rewrite Hkv, IH.
Qed.

Lemma toFallback_urls (links : list Link.t) :
  map Fallback.url (map toFallback links) = map Link.url links.
Proof. induction links as [|l links IH]; simpl; [reflexivity|now rewrite IH]. Qed.

Local Abbreviation unique_urls :=
  (fun rec : Feature.t => NoDup (map Fallback.url (Feature.fallbacks rec))).

Lemma discoverFallbacks_unique slugs fallbacks :
  discoverFallbacks seeAlsoPolyfills slugs = Some fallbacks ->
  NoDup (map Fallback.url fallbacks).
Proof.
  unfold discoverFallbacks.
  destruct (flat_map _ slugs) as [|l ls]; [discriminate|].
  intros [= <-]. rewrite toFallback_urls. apply uniqueLinks_NoDup.
Qed.

Lemma discover_unique mdnDocsMapping mappings featureId :
  Forall (fun kv => unique_urls (snd kv)) mappings ->
  Forall (fun kv => unique_urls (snd kv))
    (discover getMDNSlug seeAlsoPolyfills mdnDocsMapping mappings featureId).
Proof.
  intros Hm. unfold discover.
  destruct (slugsOf getMDNSlug mdnDocsMapping featureId) as [|s slugs]; [assumption|].
  destruct (discoverFallbacks _ _) as [fallbacks|] eqn:Hd; [|assumption].
  apply (Forall_values_set unique_urls); [assumption|].
  simpl. eapply discoverFallbacks_unique, Hd.
Qed.

Lemma discovered_unique mdnDocsMapping (ids : list string) mappings :
  Forall (fun kv => unique_urls (snd kv)) mappings ->
  Forall (fun kv => unique_urls (snd kv))
    (fold_left (discover getMDNSlug seeAlsoPolyfills mdnDocsMapping) ids mappings).
Proof.
  revert mappings. induction ids as [|i ids IH]; simpl; intros mappings Hm; [assumption|].
  apply IH, discover_unique, Hm.
Qed.

Lemma discover_NoDup_keys mdnDocsMapping (ids : list string) mappings :
  NoDup (keys mappings) ->
  NoDup (keys (fold_left (discover getMDNSlug seeAlsoPolyfills mdnDocsMapping) ids mappings)).
Proof.
  revert mappings. induction ids as [|i ids IH]; simpl; intros mappings Hm; [assumption|].
  apply IH. unfold discover.
  destruct (slugsOf _ _ _); [assumption|].
  destruct (discoverFallbacks _ _); [|assumption].
  now apply NoDup_keys_set.
Qed.

(** Sorting moves records without changing them. *)
Lemma sortByFeatureId_values (Q : Feature.t -> Prop) mappings :
  Forall (fun kv => Q (snd kv)) mappings ->
  Forall (fun kv => Q (snd kv)) (sortByFeatureId mappings).
Proof.
  intros Hm. unfold sortByFeatureId.
  generalize (merge_sort String.le (keys mappings)) as ks.
  assert (Hacc : Forall (fun kv : string * Feature.t => Q (snd kv)) []) by constructor.
  revert Hacc. generalize (@nil (string * Feature.t)) as acc.
  intros acc Hacc ks. revert acc Hacc.
  induction ks as [|k ks IH]; simpl; intros acc Hacc; [assumption|].
  apply IH. destruct (get k mappings) as [v|] eqn:Hget; [|assumption].
  apply (Forall_values_set Q); [assumption|].
  apply get_Some_elem in Hget.
  eapply Forall_forall in Hm; [|exact Hget]. exact Hm.
Qed.

Lemma sortByFeatureId_fold mappings (ks : list string) acc :
  NoDup ks ->
  (forall k, k ∈ ks -> k ∉ keys acc) ->
  (forall k, k ∈ ks -> k ∈ keys mappings) ->
  keys (fold_left
          (fun sorted key =>
             match get key mappings with
             | Some v => set key v sorted
             | None => sorted
             end) ks acc) = (keys acc ++ ks)%list.
Proof.
  revert acc. induction ks as [|k ks IH]; simpl; intros acc Hnd Hfresh Hin.
  - now rewrite app_nil_r.
  - apply NoDup_cons in Hnd as [Hk Hnd].
    destruct (get k mappings) as [v|] eqn:Hget.
    + rewrite IH.
      * rewrite keys_set_absent by (apply Hfresh; left).
        now rewrite <- app_assoc.
      * assumption.
      * intros k' Hk'. rewrite keys_set_absent by (apply Hfresh; left).
        rewrite elem_of_app, list_elem_of_singleton.
        intros [H | ->]; [|contradiction].
        revert H. apply Hfresh. now right.
      * intros k' Hk'. apply Hin. now right.
    + exfalso. apply get_None_keys in Hget. apply Hget, Hin. left.
Qed.

(** The object that [generateMappings] returns lists its keys in the order
    of the sort. *)
Lemma keys_sortByFeatureId mappings :
  NoDup (keys mappings) ->
  keys (sortByFeatureId mappings) = merge_sort String.le (keys mappings).
Proof.
  intros Hnd. unfold sortByFeatureId. rewrite sortByFeatureId_fold; simpl.
  - reflexivity.
  - now rewrite merge_sort_Permutation.
  - intros k _. apply not_elem_of_nil.
  - intros k. now rewrite merge_sort_Permutation.
Qed.

Lemma generateMappings_sorted mdnDocsMapping :
  Sorted String.le
    (keys (generateMappings features getMDNSlug seeAlsoPolyfills mdnDocsMapping)).
Proof.
  unfold generateMappings. rewrite keys_sortByFeatureId.
  - apply Sorted_merge_sort. apply _.
  - apply discover_NoDup_keys. apply NoDup_nil_2.
Qed.

(** C5. In the mapping that auto-discovery returns, before any override is
    merged, no record holds two fallbacks with the same url. *)
Theorem discovered_urls_unique mdnDocsMapping featureId rec :
  get featureId (generateMappings features getMDNSlug seeAlsoPolyfills mdnDocsMapping)
    = Some rec ->
  NoDup (map Fallback.url (Feature.fallbacks rec)).
Proof.
  intros Hget. apply get_Some_elem in Hget.
  assert (Hall : Forall (fun kv => unique_urls (snd kv))
            (generateMappings features getMDNSlug seeAlsoPolyfills mdnDocsMapping)).
  { unfold generateMappings. apply (sortByFeatureId_values unique_urls).
    apply discovered_unique. constructor. }
  eapply Forall_forall in Hall; [|exact Hget]. exact Hall.
Qed.

End DiscoveryFacts.

(** ** Slugs and paths *)

Section SlugFacts.

Import JsString PolyfillMappings.

Lemma string_ind2 (Q : string -> Prop) :
  Q "" -> (forall c, Q (String c "")) ->
  (forall c c' u, Q u -> Q (String c' u) -> Q (String c (String c' u))) ->
  forall u, Q u.
Proof.
  intros H0 H1 H2 u.
  assert (H : Q u /\ forall c, Q (String c u)).
  { induction u as [|c' u [IHu IHcu]]; [split; [exact H0|exact H1]|].
    split; [apply IHcu|]. intros c. apply H2; [exact IHu|apply IHcu]. }
  apply H.
Qed.

Lemma string_app_cons c (a b : string) : String c a ++ b = String c (a ++ b).
Proof. reflexivity. Qed.

Lemma string_length_app (a b : string) :
  String.length (a ++ b) = (String.length a + String.length b)%nat.
Proof.
  induction a as [|c a IH]; [reflexivity|].
  rewrite string_app_cons. simpl. now rewrite IH.
Qed.

Lemma string_app_assoc (a b c : string) : (a ++ b) ++ c = a ++ (b ++ c).
Proof.
  induction a as [|x a IH]; [reflexivity|].
  rewrite !string_app_cons. now rewrite IH.
Qed.

Lemma lower_ascii_idem c : lower_ascii (lower_ascii c) = lower_ascii c.
Proof. destruct c as [[] [] [] [] [] [] [] []]; reflexivity. Qed.

Lemma lower_ascii_colon c : lower_ascii c = ":"%char -> c = ":"%char.
Proof. destruct c as [[] [] [] [] [] [] [] []]; simpl; intros H; first [reflexivity|discriminate H]. Qed.

Lemma toLowerCase_app a b : toLowerCase (a ++ b) = toLowerCase a ++ toLowerCase b.
Proof.
  induction a as [|c a IH]; [reflexivity|].
  rewrite string_app_cons. simpl. now rewrite IH.
Qed.

Lemma prefix_nil s : String.prefix "" s = true.
Proof. now destruct s. Qed.

Lemma prefix_cons a s1 b s2 :
  String.prefix (String a s1) (String b s2) = Ascii.eqb a b && String.prefix s1 s2.
Proof.
  cbn [String.prefix].
  destruct (ascii_dec a b) as [->|Hne].
  - now rewrite Ascii.eqb_refl.
  - apply Ascii.eqb_neq in Hne. now rewrite Hne.
Qed.

Lemma replaceAll_from_0 pat rep c s :
  replaceAll_from pat rep 0 (String c s) =
  if String.prefix pat (String c s)
  then rep ++ replaceAll_from pat rep (String.length pat - 1) s
  else String c (replaceAll_from pat rep 0 s).
Proof. reflexivity. Qed.

(** A pattern of one character is replaced character by character. *)
Lemma replaceAll_char_cons p rep c s :
  replaceAll (String p "") rep (String c s) =
  if Ascii.eqb p c then rep ++ replaceAll (String p "") rep s
  else String c (replaceAll (String p "") rep s).
Proof.
  unfold replaceAll. rewrite replaceAll_from_0, prefix_cons, prefix_nil, andb_true_r.
  reflexivity.
Qed.

Lemma replaceAll_char_app p rep a b :
  replaceAll (String p "") rep (a ++ b) =
  replaceAll (String p "") rep a ++ replaceAll (String p "") rep b.
Proof.
  induction a as [|c a IH]; [reflexivity|].
  rewrite string_app_cons, !replaceAll_char_cons, IH.
  destruct (Ascii.eqb p c); [now rewrite string_app_assoc|reflexivity].
Qed.

Lemma replaceAll_colons_cons c s :
  replaceAll "::" "_doublecolon_" (String c s) =
  match s with
  | String c' s' =>
      if Ascii.eqb ":" c && Ascii.eqb ":" c'
      then "_doublecolon_" ++ replaceAll "::" "_doublecolon_" s'
      else String c (replaceAll "::" "_doublecolon_" s)
  | "" => String c ""
  end.
Proof.
  unfold replaceAll. rewrite replaceAll_from_0.
  destruct s as [|c' s'].
  - rewrite prefix_cons. cbn [String.prefix]. now rewrite andb_false_r.
  - rewrite !prefix_cons, prefix_nil, andb_true_r. reflexivity.
Qed.

Lemma escapeTokens_cons c s :
  escapeTokens (String c s) =
  if Ascii.eqb c ":" then
    match s with
    | String c' s' =>
        if Ascii.eqb c' ":" then "_doublecolon_" ++ escapeTokens s'
        else "_colon_" ++ escapeTokens s
    | "" => "_colon_"
    end
  else if Ascii.eqb c "*" then "_star_" ++ escapeTokens s
  else String c (escapeTokens s).
Proof. reflexivity. Qed.

(** The three replacements in a row are one scan. *)
Lemma replacements_one_scan s :
  replaceAll "*" "_star_"
    (replaceAll ":" "_colon_" (replaceAll "::" "_doublecolon_" s)) =
  escapeTokens s.
Proof.
  induction s as [| c | c c' u IHu IHcu] using string_ind2.
  - reflexivity.
  - rewrite replaceAll_colons_cons, replaceAll_char_cons, escapeTokens_cons.
    rewrite (Ascii.eqb_sym c ":"), (Ascii.eqb_sym c "*").
    destruct (Ascii.eqb ":" c) eqn:Hc; [reflexivity|].
    rewrite replaceAll_char_cons.
    destruct (Ascii.eqb "*" c); reflexivity.
  - rewrite replaceAll_colons_cons, escapeTokens_cons.
    rewrite (Ascii.eqb_sym c ":"), (Ascii.eqb_sym c' ":"), (Ascii.eqb_sym c "*").
    destruct (Ascii.eqb ":" c) eqn:Hc; cbn [andb].
    + apply Ascii.eqb_eq in Hc as <-.
      destruct (Ascii.eqb ":" c') eqn:Hc'.
      * rewrite !replaceAll_char_app. now rewrite IHu.
      * rewrite replaceAll_char_cons, Ascii.eqb_refl.
        rewrite replaceAll_char_app. now rewrite IHcu.
    + rewrite replaceAll_char_cons, Hc.
      rewrite replaceAll_char_cons.
      destruct (Ascii.eqb "*" c); now rewrite IHcu.
Qed.

Lemma slugToPath_one_scan slug : slugToPath slug = escapeTokens (toLowerCase slug).
Proof. apply replacements_one_scan. Qed.

Lemma string_app_cancel (a b c : string) : a ++ b = a ++ c -> b = c.
Proof.
  induction a as [|x a IH]; [trivial|].
  rewrite !string_app_cons. intros [= H]. now apply IH.
Qed.

(** The path of a path: nothing is left to lower-case or to escape. *)
Lemma escape_lower_idempotent s :
  escapeTokens (toLowerCase (escapeTokens (toLowerCase s))) =
  escapeTokens (toLowerCase s).
Proof.
  induction s as [| c | c c' u IHu IHcu] using string_ind2.
  - reflexivity.
  - cbn [toLowerCase]. rewrite escapeTokens_cons.
    destruct (Ascii.eqb (lower_ascii c) ":") eqn:Hc; [reflexivity|].
    destruct (Ascii.eqb (lower_ascii c) "*") eqn:Hs; [reflexivity|].
    cbn [toLowerCase]. rewrite lower_ascii_idem, escapeTokens_cons, Hc, Hs.
    reflexivity.
  - change (toLowerCase (String c (String c' u)))
      with (String (lower_ascii c) (toLowerCase (String c' u))).
    rewrite escapeTokens_cons.
    destruct (Ascii.eqb (lower_ascii c) ":") eqn:Hc.
    + change (toLowerCase (String c' u)) with (String (lower_ascii c') (toLowerCase u)).
      cbv iota.
      destruct (Ascii.eqb (lower_ascii c') ":") eqn:Hc'.
      * change (escapeTokens (toLowerCase ("_doublecolon_" ++ escapeTokens (toLowerCase u))))
          with ("_doublecolon_" ++ escapeTokens (toLowerCase (escapeTokens (toLowerCase u)))).
        now rewrite IHu.
      * change (String (lower_ascii c') (toLowerCase u)) with (toLowerCase (String c' u)).
        change (escapeTokens (toLowerCase ("_colon_" ++ escapeTokens (toLowerCase (String c' u)))))
          with ("_colon_" ++ escapeTokens (toLowerCase (escapeTokens (toLowerCase (String c' u))))).
        now rewrite IHcu.
    + destruct (Ascii.eqb (lower_ascii c) "*") eqn:Hs.
      * change (escapeTokens (toLowerCase ("_star_" ++ escapeTokens (toLowerCase (String c' u)))))
          with ("_star_" ++ escapeTokens (toLowerCase (escapeTokens (toLowerCase (String c' u))))).
        now rewrite IHcu.
      * cbn [toLowerCase]. rewrite lower_ascii_idem.
        rewrite (escapeTokens_cons (lower_ascii c)), Hc, Hs.
        cbn [toLowerCase] in IHcu. now rewrite IHcu.
Qed.

(** One more colon makes the path longer. *)
Lemma escape_colon_longer v :
  (String.length (escapeTokens v) < String.length (escapeTokens (String ":" v)))%nat.
Proof.
  induction v as [| c | c c' u IHu IHcu] using string_ind2.
  - simpl. lia.
  - rewrite (escapeTokens_cons ":"). cbn [Ascii.eqb Bool.eqb].
    destruct (Ascii.eqb c ":") eqn:Hc.
    + apply Ascii.eqb_eq in Hc as ->. simpl. lia.
    + rewrite string_length_app. simpl. lia.
  - rewrite (escapeTokens_cons ":"). cbn [Ascii.eqb Bool.eqb].
    destruct (Ascii.eqb c ":") eqn:Hc.
    + apply Ascii.eqb_eq in Hc as ->.
      rewrite (escapeTokens_cons ":" (String c' u)). cbn [Ascii.eqb Bool.eqb].
      destruct (Ascii.eqb c' ":") eqn:Hc'.
      * apply Ascii.eqb_eq in Hc' as ->. rewrite !string_length_app. lia.
      * rewrite !string_length_app. simpl. lia.
    + rewrite string_length_app. simpl. lia.
Qed.

Lemma escape_colon_differs v : escapeTokens (String ":" v) <> escapeTokens v.
Proof.
  intros H. pose proof (escape_colon_longer v) as Hlt. rewrite H in Hlt. lia.
Qed.

(** Two continuations that the scan tells apart at the start of a slug and
    behind a single colon are told apart behind any prefix. *)
Lemma escape_separates X Y :
  escapeTokens X <> escapeTokens Y ->
  escapeTokens (String ":" X) <> escapeTokens (String ":" Y) ->
  forall u, escapeTokens (u ++ X) <> escapeTokens (u ++ Y).
Proof.
  intros H1 H2 u.
  induction u as [| c | c c' u IHu IHcu] using string_ind2.
  - exact H1.
  - change (String c "" ++ X) with (String c X).
    change (String c "" ++ Y) with (String c Y).
    destruct (Ascii.eqb c ":") eqn:Hc.
    + apply Ascii.eqb_eq in Hc as ->. exact H2.
    + rewrite !(escapeTokens_cons c), Hc.
      destruct (Ascii.eqb c "*").
      * intros H. now apply string_app_cancel in H.
      * intros [= H]. contradiction.
  - change (String c (String c' u) ++ X) with (String c (String c' u ++ X)).
    change (String c (String c' u) ++ Y) with (String c (String c' u ++ Y)).
    rewrite !(escapeTokens_cons c).
    destruct (Ascii.eqb c ":").
    + change (String c' u ++ X) with (String c' (u ++ X)).
      change (String c' u ++ Y) with (String c' (u ++ Y)).
      cbv iota.
      destruct (Ascii.eqb c' ":").
      * intros H. now apply string_app_cancel in H.
      * intros H. apply string_app_cancel in H. now apply IHcu.
    + destruct (Ascii.eqb c "*").
      * intros H. now apply string_app_cancel in H.
      * intros [= H]. contradiction.
Qed.

(** The scan tells the three tokens apart wherever they stand. *)
Lemma escape_tokens_apart u v :
  escapeTokens (u ++ "::" ++ v) <> escapeTokens (u ++ ":" ++ v) /\
  escapeTokens (u ++ "::" ++ v) <> escapeTokens (u ++ "*" ++ v) /\
  escapeTokens (u ++ ":" ++ v) <> escapeTokens (u ++ "*" ++ v).
Proof.
  change ("::" ++ v) with (String ":" (String ":" v)).
  change (":" ++ v) with (String ":" v).
  change ("*" ++ v) with (String "*" v).
  split; [|split]; apply escape_separates.
  - rewrite (escapeTokens_cons ":" (String ":" v)). cbn [Ascii.eqb Bool.eqb].
    apply not_eq_sym. rewrite (escapeTokens_cons ":" v). cbn [Ascii.eqb Bool.eqb].
    destruct v as [|c v]; [discriminate|].
    destruct (Ascii.eqb c ":") eqn:Hc.
    + apply Ascii.eqb_eq in Hc as ->. intros H. apply string_app_cancel in H.
      symmetry in H. revert H. apply escape_colon_differs.
    + discriminate.
  - rewrite (escapeTokens_cons ":" (String ":" (String ":" v))). cbn [Ascii.eqb Bool.eqb].
    rewrite (escapeTokens_cons ":" (String ":" v)). cbn [Ascii.eqb Bool.eqb].
    intros H. apply string_app_cancel in H. revert H. apply escape_colon_differs.
  - rewrite (escapeTokens_cons ":" (String ":" v)), (escapeTokens_cons "*").
    discriminate.
  - rewrite (escapeTokens_cons ":" (String ":" (String ":" v))).
    rewrite (escapeTokens_cons ":" (String "*" v)).
    discriminate.
  - rewrite (escapeTokens_cons ":" v), (escapeTokens_cons "*").
    cbn [Ascii.eqb Bool.eqb].
    destruct v as [|c v]; [discriminate|].
    destruct (Ascii.eqb c ":"); discriminate.
  - rewrite (escapeTokens_cons ":" (String ":" v)).
    rewrite (escapeTokens_cons ":" (String "*" v)).
    discriminate.
Qed.

(** C7. [slugToPath] is idempotent, and two slugs that differ in which of the
    three tokens stands at one place (two colons, one colon, a star) never
    share a path. *)
Theorem slugToPath_idempotent_and_token_injective :
  (forall slug, slugToPath (slugToPath slug) = slugToPath slug) /\
  (forall u v,
     slugToPath (u ++ "::" ++ v) <> slugToPath (u ++ ":" ++ v) /\
     slugToPath (u ++ "::" ++ v) <> slugToPath (u ++ "*" ++ v) /\
     slugToPath (u ++ ":" ++ v) <> slugToPath (u ++ "*" ++ v)).
Proof.
  split.
  - intros slug. rewrite !slugToPath_one_scan. apply escape_lower_idempotent.
  - intros u v. rewrite !slugToPath_one_scan, !toLowerCase_app.
    change (toLowerCase "::") with "::".
    change (toLowerCase ":") with ":".
    change (toLowerCase "*") with "*".
    apply escape_tokens_apart.
Qed.

(** The conversion as a whole is not injective: case is folded, and a slug
    may spell an escape out. *)
Lemma slugToPath_not_injective :
  slugToPath "Set" = slugToPath "set" /\ slugToPath "a:b" = slugToPath "a_colon_b".
Proof. split; reflexivity. Qed.

End SlugFacts.

(** ** The statistics generator *)

Section NpmStatsFacts.

Import JsString NpmStats.
Local Open Scope Z_scope.

Variable FORCE_REFRESH : bool.
Variable Date_parse : string -> option Z.
Variable toISOString : Z -> string.
Variable npmApi : string -> list Response.

Implicit Types (stats existingStats : gmap string StatsValue) (pkg : string).

Lemma if_truthy_None (x : option string) :
  if_truthy x = None <-> x = None \/ x = Some "".
Proof.
  destruct x as [s|]; simpl; [|tauto].
  unfold truthy_string. destruct (String.eqb_spec s "") as [->|Hne]; simpl.
  - tauto.
  - split; [discriminate|]. intros [H|[= H]]; [discriminate|contradiction].
Qed.

Lemma if_truthy_Some (x : option string) s : if_truthy x = Some s -> x = Some s.
Proof.
  destruct x as [s'|]; simpl; [|discriminate].
  destruct (truthy_string s'); [congruence|discriminate].
Qed.

(** [!value] holds of a missing value and of the count 0 only. *)
Lemma falsy_true (value : option StatsValue) :
  falsy value = true <-> value = None \/ value = Some (Legacy 0).
Proof.
  destruct value as [[count|entry]|]; simpl.
  - rewrite negb_involutive, Z.eqb_eq. split.
    + intros ->. now right.
    + intros [H|[= H]]; [discriminate|exact H].
  - split; [discriminate|]. intros [H|H]; discriminate.
  - split; [now left|reflexivity].
Qed.

Lemma falsy_false (value : option StatsValue) :
  falsy value = false <-> exists v, value = Some v /\ truthy_value v = true.
Proof.
  destruct value as [v|]; simpl.
  - rewrite negb_false_iff. split; [intros H; now exists v|].
    now intros (v' & [= <-] & H).
  - split; [discriminate|]. intros (v & H & _). discriminate.
Qed.

Lemma fetchPackageStats_cons r later retryCount clock :
  fetchPackageStats (r :: later) retryCount clock =
  match r with
  | NetworkError => (Null, clock)
  | Http status body =>
      if status =? 404 then (Null, clock)
      else if (status =? 429) && (retryCount <? MAX_RETRIES)%nat then
        fetchPackageStats later (retryCount + 1)
          (delay (DELAY_MS * (Z.of_nat retryCount + 2)) clock)
      else if negb (ok status) then (Null, clock)
      else
        match body with
        | Unreadable => (Null, clock)
        | Document downloads => (downloads, clock)
        end
  end.
Proof. reflexivity. Qed.

(** The answer of a request does not depend on when it is sent. *)
Lemma fetchPackageStats_clock responses retryCount clock clock' :
  fst (fetchPackageStats responses retryCount clock) =
  fst (fetchPackageStats responses retryCount clock').
Proof.
  revert retryCount clock clock'.
  induction responses as [|r later IH]; intros retryCount clock clock'; [reflexivity|].
  rewrite !fetchPackageStats_cons.
  destruct r as [|status body]; [reflexivity|].
  destruct (status =? 404); [reflexivity|].
  destruct ((status =? 429) && (retryCount <? MAX_RETRIES)%nat); [apply IH|].
  destruct (negb (ok status)); [reflexivity|]. now destruct body.
Qed.

(** The clock of a request never goes back. *)
Lemma fetchPackageStats_later responses retryCount clock :
  clock <= snd (fetchPackageStats responses retryCount clock).
Proof.
  revert retryCount clock.
  induction responses as [|r later IH]; intros retryCount clock; [reflexivity|].
  rewrite fetchPackageStats_cons.
  destruct r as [|status body]; [reflexivity|].
  destruct (status =? 404); [reflexivity|].
  destruct ((status =? 429) && (retryCount <? MAX_RETRIES)%nat).
  - etransitivity; [|apply IH]. unfold delay, DELAY_MS. lia.
  - destruct (negb (ok status)); [reflexivity|]. destruct body; reflexivity.
Qed.

Local Abbreviation answer now pkg := (fst (fetchPackageStats (npmApi pkg) 0 now)).
Local Abbreviation step total := (refreshOne toISOString npmApi total).
Local Abbreviation loop total := (refreshEach toISOString npmApi total).
Local Abbreviation run := (fetchAllStats FORCE_REFRESH Date_parse toISOString npmApi).
Local Abbreviation due := (packagesToRefresh FORCE_REFRESH Date_parse).

(** A step that does not throw: its request gave a count, which is
    recorded, or it failed, and then a record without a count is written
    unless the package has a truthy value. *)
Lemma refreshOne_Done now total stats processed clock pkg state :
  step total (stats, processed, clock) pkg = Done state ->
  exists stats1 clock1 clock2,
    state = (stats1, S processed, clock2) /\ clock <= clock1 /\ clock1 <= clock2 /\
    ((exists count,
        answer now pkg = Count count /\
        stats1 = <[pkg := Entry {| downloads := Some count;
                                   lastModified := Some (toISOString clock1) |}]> stats) \/
     (answer now pkg = Null /\ falsy (stats !! pkg) = true /\
      stats1 = <[pkg := Entry {| downloads := None;
                                 lastModified := Some (toISOString clock1) |}]> stats) \/
     (answer now pkg = Null /\ falsy (stats !! pkg) = false /\ stats1 = stats)).
Proof.
  unfold refreshOne.
  rewrite (fetchPackageStats_clock (npmApi pkg) 0 now clock).
  pose proof (fetchPackageStats_later (npmApi pkg) 0 clock) as Hlater.
  destruct (fetchPackageStats (npmApi pkg) 0 clock) as [result clock1].
  cbn [fst snd] in *.
  assert (Htick : clock1 <=
            if (S processed <? total)%nat then delay DELAY_MS clock1 else clock1).
  { destruct (S processed <? total)%nat; unfold delay, DELAY_MS; lia. }
  destruct result as [| |count].
  - discriminate.
  - destruct (falsy (stats !! pkg)) eqn:Hfalsy; intros [= <-];
      eexists _, clock1, _; (split; [reflexivity|]); (split; [lia|]);
      (split; [exact Htick|]); right; [left|right]; repeat split; assumption.
  - intros [= <-]. eexists _, clock1, _. split; [reflexivity|]. split; [lia|].
    split; [exact Htick|]. left. now exists count.
Qed.

(** A step throws exactly when the request gives [undefined]. *)
Lemma refreshOne_completes now total state pkg :
  answer now pkg <> Undefined -> exists state', step total state pkg = Done state'.
Proof.
  destruct state as [[stats processed] clock]. unfold refreshOne.
  rewrite (fetchPackageStats_clock (npmApi pkg) 0 now clock).
  destruct (fetchPackageStats (npmApi pkg) 0 clock) as [result clock1].
  cbn [fst]. destruct result as [| |count]; intros Hdef.
  - contradiction.
  - destruct (falsy (stats !! pkg)); eauto.
  - eauto.
Qed.

Lemma refreshOne_throws now total state pkg :
  answer now pkg = Undefined -> exists msg, step total state pkg = Fatal msg.
Proof.
  destruct state as [[stats processed] clock]. unfold refreshOne.
  rewrite (fetchPackageStats_clock (npmApi pkg) 0 now clock).
  destruct (fetchPackageStats (npmApi pkg) 0 clock) as [result clock1].
  cbn [fst]. intros ->. eauto.
Qed.

Lemma refreshEach_cons total p (stale : list string) state :
  loop total (p :: stale) state =
  match step total state p with
  | Done state => loop total stale state
  | Fatal msg => Fatal msg
  end.
Proof. reflexivity. Qed.

Lemma refreshEach_completes now total (stale : list string) state :
  (forall p, p ∈ stale -> answer now p <> Undefined) ->
  exists state', loop total stale state = Done state'.
Proof.
  revert state. induction stale as [|p stale IH]; intros state Hdefined.
  - now exists state.
  - rewrite refreshEach_cons.
    destruct (refreshOne_completes now total state p) as [state1 ->].
    { apply Hdefined. now left. }
    apply IH. intros q Hq. apply Hdefined. now right.
Qed.

Lemma refreshEach_throws now total (stale : list string) state p :
  p ∈ stale -> answer now p = Undefined ->
  exists msg, loop total stale state = Fatal msg.
Proof.
  revert state. induction stale as [|q stale IH]; intros state Hin Hundefined.
  - now apply elem_of_nil in Hin.
  - rewrite refreshEach_cons.
    destruct (step total state q) as [state1|msg] eqn:Hstep; [|now exists msg].
    apply elem_of_cons in Hin as [->|Hin]; [|now apply IH].
    destruct (refreshOne_throws now total state q Hundefined) as [msg Hmsg].
    congruence.
Qed.

(** The loop writes under the names of its packages only. *)
Lemma refreshEach_untouched total (stale : list string) state state' pkg :
  loop total stale state = Done state' ->
  pkg ∉ stale ->
  fst (fst state') !! pkg = fst (fst state) !! pkg.
Proof.
  revert state.
  induction stale as [|p stale IH]; intros [[stats processed] clock] Hloop Hnotin.
  - now injection Hloop as <-.
  - apply not_elem_of_cons in Hnotin as [Hne Hnotin].
    rewrite refreshEach_cons in Hloop.
    destruct (step total (stats, processed, clock) p) as [state1|msg] eqn:Hstep;
      [|discriminate].
    apply (refreshOne_Done 0) in Hstep
      as (stats1 & clock1 & clock2 & -> & _ & _ & Hcase).
    rewrite (IH _ Hloop Hnotin). cbn [fst].
    destruct Hcase as [(count & _ & ->)|[(_ & _ & ->)|(_ & _ & ->)]];
      [now rewrite lookup_insert_ne|now rewrite lookup_insert_ne|reflexivity].
Qed.

(** A failed request leaves a truthy value as it is. *)
Lemma refreshEach_keeps now total (stale : list string) state state' pkg value :
  loop total stale state = Done state' ->
  answer now pkg = Null ->
  fst (fst state) !! pkg = Some value ->
  truthy_value value = true ->
  fst (fst state') !! pkg = Some value.
Proof.
  intros Hloop Hnull Hvalue Htruthy. revert state Hloop Hvalue.
  induction stale as [|p stale IH]; intros [[stats processed] clock] Hloop Hvalue.
  - now injection Hloop as <-.
  - rewrite refreshEach_cons in Hloop.
    destruct (step total (stats, processed, clock) p) as [state1|msg] eqn:Hstep;
      [|discriminate].
    apply (refreshOne_Done now) in Hstep
      as (stats1 & clock1 & clock2 & -> & _ & _ & Hcase).
    apply (IH _ Hloop). cbn [fst] in *.
    destruct (decide (p = pkg)) as [->|Hne].
    + destruct Hcase as [(count & Hcount & _)|[(_ & Hfalsy & _)|(_ & _ & ->)]].
      * congruence.
      * rewrite Hvalue in Hfalsy. simpl in Hfalsy. rewrite Htruthy in Hfalsy.
        discriminate.
      * exact Hvalue.
    + destruct Hcase as [(count & _ & ->)|[(_ & _ & ->)|(_ & _ & ->)]];
        [now rewrite lookup_insert_ne|now rewrite lookup_insert_ne|exact Hvalue].
Qed.

(** The value of a package whose request gives a count, or fails while the
    package has no truthy value: what the request gave, stamped during the
    run. *)
Local Abbreviation stamped now result value :=
  (exists t, now <= t /\
     value =
     Some (Entry {| downloads := match result with
                                 | Count count => Some count
                                 | _ => None
                                 end;
                    lastModified := Some (toISOString t) |})).

Lemma refreshEach_stamped now total (stale : list string) state state' pkg :
  loop total stale state = Done state' ->
  now <= snd state ->
  stamped now (answer now pkg) (fst (fst state) !! pkg) \/
  (pkg ∈ stale /\
   ((exists count, answer now pkg = Count count) \/
    (answer now pkg = Null /\ falsy (fst (fst state) !! pkg) = true))) ->
  stamped now (answer now pkg) (fst (fst state') !! pkg).
Proof.
  revert state.
  induction stale as [|p stale IH]; intros [[stats processed] clock] Hloop Hclock Hpre.
  - injection Hloop as <-.
    destruct Hpre as [H|[H _]]; [exact H|now apply elem_of_nil in H].
  - rewrite refreshEach_cons in Hloop.
    destruct (step total (stats, processed, clock) p) as [state1|msg] eqn:Hstep;
      [|discriminate].
    apply (refreshOne_Done now) in Hstep
      as (stats1 & clock1 & clock2 & -> & Hc1 & Hc2 & Hcase).
    cbn [fst snd] in *.
    apply (IH _ Hloop); [cbn [snd]; lia|clear IH Hloop]. cbn [fst].
    destruct (decide (p = pkg)) as [->|Hne].
    + left.
      destruct Hcase as [(count & Hcount & ->)|[(Hnull & Hfalsy & ->)|(Hnull & Hfalsy & ->)]].
      * exists clock1. split; [lia|]. now rewrite Hcount, lookup_insert_eq.
      * exists clock1. split; [lia|]. now rewrite Hnull, lookup_insert_eq.
      * destruct Hpre as [Hst|[_ [[count Hcount]|[_ Htrue]]]];
          [exact Hst|congruence|congruence].
    + assert (Hsame : stats1 !! pkg = stats !! pkg).
      { destruct Hcase as [(count & _ & ->)|[(_ & _ & ->)|(_ & _ & ->)]];
          [now rewrite lookup_insert_ne|now rewrite lookup_insert_ne|reflexivity]. }
      rewrite Hsame.
      destruct Hpre as [Hst|[Hin Hcase']]; [now left|right].
      split; [|exact Hcase'].
      apply elem_of_cons in Hin as [Heq|Hin]; [congruence|exact Hin].
Qed.

(** C8. A package is fetched exactly when [--force] is given, or the
    existing statistics have no value for it, or its value has no
    [lastModified], or its [lastModified] is a date more than one week before
    now.  In a run that no answer without a count stops, any other package
    keeps its value, and a package that is fetched has in the result the
    record of this run: the count of the registry, or, when the request
    failed and nothing truthy was there, no count, with a timestamp not
    before the start. *)
Theorem refresh_iff_forced_or_stale now (packages : list string) existingStats pkg :
  (needsRefresh FORCE_REFRESH Date_parse now pkg existingStats = true <->
     FORCE_REFRESH = true \/
     existingStats !! pkg = None \/
     (exists value, existingStats !! pkg = Some value /\
        (lastModifiedOf value = None \/ lastModifiedOf value = Some "")) \/
     (exists entry stamp t, existingStats !! pkg = Some (Entry entry) /\
        lastModified entry = Some stamp /\ Date_parse stamp = Some t /\
        now - t > ONE_WEEK_MS)) /\
  (pkg ∈ due now packages existingStats <->
     pkg ∈ packages /\
     needsRefresh FORCE_REFRESH Date_parse now pkg existingStats = true) /\
  ((forall p, p ∈ due now packages existingStats -> answer now p <> Undefined) ->
   exists stats,
     run now packages existingStats = Done stats /\
     (needsRefresh FORCE_REFRESH Date_parse now pkg existingStats = false ->
        stats !! pkg = existingStats !! pkg) /\
     (pkg ∈ due now packages existingStats ->
        (forall count, answer now pkg = Count count ->
           exists t, now <= t /\
             stats !! pkg =
             Some (Entry {| downloads := Some count;
                            lastModified := Some (toISOString t) |})) /\
        (answer now pkg = Null -> falsy (existingStats !! pkg) = true ->
           exists t, now <= t /\
             stats !! pkg =
             Some (Entry {| downloads := None;
                            lastModified := Some (toISOString t) |})))).
Proof.
  split; [|split].
  - unfold needsRefresh.
    destruct FORCE_REFRESH; [split; [now left|reflexivity]|].
    destruct (falsy (existingStats !! pkg)) eqn:Hfalsy.
    { split; [|reflexivity]. intros _. right.
      apply falsy_true in Hfalsy as [H|H]; [now left|right; left].
      exists (Legacy 0). split; [exact H|now left]. }
    apply falsy_false in Hfalsy as (value & Hvalue & Htruthy). rewrite Hvalue.
    destruct (if_truthy (lastModifiedOf value)) as [stamp|] eqn:Hstamp.
    + apply if_truthy_Some in Hstamp as Hlast.
      assert (Hentry : exists entry, value = Entry entry /\ lastModified entry = Some stamp).
      { destruct value as [count|entry]; [discriminate Hlast|now exists entry]. }
      destruct (Date_parse stamp) as [t|] eqn:Ht.
      * rewrite Z.gtb_gt. split.
        -- intros Hold. destruct Hentry as (entry & -> & Hentry).
           right; right; right. now exists entry, stamp, t.
        -- intros [H|[H|[(v & [= <-] & [H|H])|(e & s & t' & [= ->] & Hs & Ht' & Hold)]]];
             try discriminate.
           ++ rewrite H in Hstamp. discriminate.
           ++ rewrite H in Hstamp. discriminate.
           ++ simpl in Hlast. congruence.
      * split; [discriminate|].
        intros [H|[H|[(v & [= <-] & [H|H])|(e & s & t' & [= ->] & Hs & Ht' & Hold)]]];
          try discriminate.
        -- rewrite H in Hstamp. discriminate.
        -- rewrite H in Hstamp. discriminate.
        -- simpl in Hlast. congruence.
    + apply if_truthy_None in Hstamp.
      split; [|reflexivity]. intros _. right; right; left. now exists value.
  - unfold packagesToRefresh. rewrite list_elem_of_filter.
    rewrite Is_true_true. tauto.
  - intros Hdefined. unfold fetchAllStats.
    assert (Hfresh : needsRefresh FORCE_REFRESH Date_parse now pkg existingStats = false ->
                     pkg ∉ due now packages existingStats).
    { intros Hfresh. unfold packagesToRefresh.
      rewrite list_elem_of_filter, Is_true_true. intros [H _]. congruence. }
    destruct (due now packages existingStats) as [|p stale] eqn:Hstale.
    { exists existingStats. split; [reflexivity|]. split; [reflexivity|].
      intros Hin. now apply elem_of_nil in Hin. }
    destruct (refreshEach_completes now (length (p :: stale)) (p :: stale)
                (existingStats, 0%nat, now) Hdefined) as [[[stats processed] clock] Hloop].
    rewrite Hloop. exists stats. split; [reflexivity|]. split.
    + intros Hskip.
      apply (refreshEach_untouched _ _ _ _ pkg Hloop). now apply Hfresh.
    + intros Hin. split.
      * intros count Hcount.
        destruct (refreshEach_stamped now _ _ _ _ pkg Hloop) as (t & Ht & Hlook);
          [reflexivity| |].
        { right. split; [exact Hin|]. left. now exists count. }
        exists t. split; [exact Ht|]. cbn [fst] in Hlook. now rewrite Hcount in Hlook.
      * intros Hnull Hfalsy.
        destruct (refreshEach_stamped now _ _ _ _ pkg Hloop) as (t & Ht & Hlook);
          [reflexivity| |].
        { right. split; [exact Hin|]. right. now split. }
        exists t. split; [exact Ht|]. cbn [fst] in Hlook. now rewrite Hnull in Hlook.
Qed.

End NpmStatsFacts.

(** ** The order of keys after the merge *)

Section MergeOrder.

Import JsObject PolyfillMappings.
Implicit Types (mappings auto : list (string * Feature.t))
  (overrides : list (string * Override.t)) (k : string) (ov : Override.t).

Lemma StronglySorted_filter {A : Type} (R : relation A) (P : A -> Prop)
    `{!forall x, Decision (P x)} (l : list A) :
  StronglySorted R l -> StronglySorted R (filter P l).
Proof.
  induction l as [|x l IH]; intros Hs; [constructor|].
  apply StronglySorted_cons in Hs as [Hx Hs].
  destruct (decide (P x)) as [HP|HP].
  - rewrite filter_cons_True by assumption.
    apply StronglySorted_cons. split; [|now apply IH].
    apply Forall_forall. intros y Hy. apply list_elem_of_filter in Hy as [_ Hy].
    eapply Forall_forall in Hx; [exact Hx|exact Hy].
  - rewrite filter_cons_False by assumption. now apply IH.
Qed.

(** An entry for a feature that is in the mapping leaves the keys as they
    are or removes its own. *)
Lemma mergeOverride_keys_present mappings k ov :
  k ∈ keys mappings ->
  keys (mergeOverride mappings (k, ov)) = keys mappings \/
  keys (mergeOverride mappings (k, ov)) = filter (fun k' => k' <> k) (keys mappings).
Proof.
  intros Hin. unfold mergeOverride; simpl.
  destruct (truthy_flag (Override.exclude ov)); [right; apply keys_delete|].
  left. destruct (Override.fallbacks ov) as [F|]; [|reflexivity].
  destruct (truthy_flag (Override.replace ov)); [now apply keys_set_present|].
  destruct (get k mappings); now apply keys_set_present.
Qed.

(** Overrides that name auto-discovered features only keep the keys in
    order. *)
Lemma mergeOverrides_keeps_order overrides auto :
  NoDup (keys overrides) ->
  (forall k, k ∈ keys overrides -> k ∈ keys auto) ->
  StronglySorted String.le (keys auto) ->
  StronglySorted String.le (keys (mergeOverrides auto overrides)).
Proof.
  unfold mergeOverrides.
  revert auto. induction overrides as [|[k ov] overrides IH]; intros auto Hnd Hin Hs;
    [exact Hs|].
  cbn [fold_left]. unfold keys in Hnd. simpl in Hnd.
  apply NoDup_cons in Hnd as [Hk Hnd].
  assert (Hkin : k ∈ keys auto) by (apply Hin; left).
  apply IH; [exact Hnd| |].
  - intros k' Hk'.
    assert (Hne : k' <> k) by (intros ->; contradiction).
    assert (Hk'in : k' ∈ keys auto) by (apply Hin; now right).
    destruct (mergeOverride_keys_present auto k ov Hkin) as [-> | ->]; [exact Hk'in|].
    apply list_elem_of_filter. now split.
  - destruct (mergeOverride_keys_present auto k ov Hkin) as [-> | ->]; [exact Hs|].
    now apply StronglySorted_filter.
Qed.

(** X10. The file [main] writes has its keys in ascending order as long as
    no override adds a feature. *)
Lemma main_sorted_without_added_features
    (features : list string) (getMDNSlug : string -> option string)
    (seeAlsoPolyfills : string -> list Link.t)
    (mdnDocsMapping : list (string * list string)) (file : OverridesFile) :
  (forall k, k ∈ keys (loadOverrides file) ->
     k ∈ keys (generateMappings features getMDNSlug seeAlsoPolyfills mdnDocsMapping)) ->
  exists final,
    main features getMDNSlug seeAlsoPolyfills (Some mdnDocsMapping) true file = Done final /\
    StronglySorted String.le (keys final).
Proof.
  intros Hin. eexists. split; [reflexivity|].
  apply mergeOverrides_keeps_order; [apply NoDup_keys_loadOverrides|exact Hin|].
  apply Sorted_StronglySorted; [apply _|]. apply generateMappings_sorted.
Qed.

End MergeOrder.

(** ** Package names in urls *)

Section PackageFacts.

Import JsString Regex PolyfillMappings.

Lemma prefix_app (l r : string) : String.prefix l (l ++ r) = true.
Proof.
  induction l as [|c l IH]; [apply prefix_nil|].
  rewrite string_app_cons, prefix_cons, Ascii.eqb_refl. exact IH.
Qed.

Lemma substring_all (r : string) : String.substring 0 (String.length r) r = r.
Proof. induction r as [|c r IH]; simpl; [reflexivity|now rewrite IH]. Qed.

Lemma substring_skip (l r : string) m :
  String.substring (String.length l) m (l ++ r) = String.substring 0 m r.
Proof.
  induction l as [|c l IH]; [reflexivity|].
  rewrite string_app_cons. simpl. exact IH.
Qed.

Lemma substring_take (a b : string) :
  String.substring 0 (String.length (a ++ b) - String.length b) (a ++ b) = a.
Proof.
  rewrite string_length_app.
  replace (String.length a + String.length b - String.length b)%nat
    with (String.length a) by lia.
  induction a as [|c a IH].
  - simpl. now destruct b.
  - rewrite string_app_cons. simpl. now rewrite IH.
Qed.

(** A literal consumes itself. *)
Lemma rmatch_Lit_app {A : Type} (l r : string) (k : string -> option A) :
  rmatch (Lit l) (l ++ r) k = k r.
Proof.
  cbn [rmatch]. rewrite prefix_app, substring_skip, string_length_app.
  replace (String.length l + String.length r - String.length l)%nat
    with (String.length r) by lia.
  now rewrite substring_all.
Qed.

Lemma rmatch_Lit_other {A : Type} c l d s (k : string -> option A) :
  Ascii.eqb c d = false -> rmatch (Lit (String c l)) (String d s) k = None.
Proof. intros Hne. cbn [rmatch]. now rewrite prefix_cons, Hne. Qed.

Lemma rmatch_Plus_cons {A : Type} cls c t (k : string -> option A) :
  rmatch (Plus cls) (String c t) k =
  if cls c
  then match rmatch (Plus cls) t k with
       | Some x => Some x
       | None => k t
       end
  else None.
Proof. reflexivity. Qed.

(** A string that cannot continue a run of the class: it is empty or starts
    with a character outside of the class. *)
Local Abbreviation stops cls rest :=
  (match rest with
   | "" => True
   | String d _ => cls d = false
   end).

Lemma rmatch_Plus_stop {A : Type} cls rest (k : string -> option A) :
  stops cls rest -> rmatch (Plus cls) rest k = None.
Proof.
  destruct rest as [|d rest]; [reflexivity|].
  intros Hd. now rewrite rmatch_Plus_cons, Hd.
Qed.

(** [[...]+] is greedy: it takes the whole run when what follows matches
    behind it. *)
Lemma rmatch_Plus_run {A : Type} cls c run rest (k : string -> option A) x :
  Forall (fun a => cls a = true) (list_ascii_of_string (String c run)) ->
  stops cls rest ->
  k rest = Some x ->
  rmatch (Plus cls) (String c run ++ rest) k = Some x.
Proof.
  intros Hrun Hstop Hk. revert c Hrun.
  induction run as [|c' run IH]; intros c Hrun;
    cbn [list_ascii_of_string] in Hrun; apply Forall_cons in Hrun as [Hc Hrun];
    rewrite string_app_cons, rmatch_Plus_cons, Hc.
  - change ("" ++ rest) with rest. now rewrite rmatch_Plus_stop.
  - now rewrite (IH c' Hrun).
Qed.

Lemma exec_skip p c l d s :
  pre p = Lit (String c l) -> Ascii.eqb c d = false ->
  exec p (String d s) = exec p s.
Proof.
  intros Hpre Hne. cbn [exec]. unfold match_here at 1.
  now rewrite Hpre, rmatch_Lit_other.
Qed.

Lemma exec_here p s cap : match_here p s = Some cap -> exec p s = Some cap.
Proof. intros H. destruct s; cbn [exec]; now rewrite H. Qed.

Lemma rmatch_Seq {A : Type} r1 r2 s (k : string -> option A) :
  rmatch (Seq r1 r2) s k = rmatch r1 s (fun s' => rmatch r2 s' k).
Proof. reflexivity. Qed.

Lemma rmatch_Opt {A : Type} r s (k : string -> option A) :
  rmatch (Opt r) s k =
  match rmatch r s k with
  | Some x => Some x
  | None => k s
  end.
Proof. reflexivity. Qed.

(** Behind an unscoped package name the expression takes one more path
    segment, whatever it is. *)
Lemma extractNpmPackage_second_segment c name d seg rest :
  Ascii.eqb "@" c = false ->
  Forall (fun a => not_slash_query_hash a = true)
    (list_ascii_of_string (String c name)) ->
  Forall (fun a => not_slash_query_hash a = true)
    (list_ascii_of_string (String d seg)) ->
  stops not_slash_query_hash rest ->
  extractNpmPackage
    ("https://www.npmjs.com/package/" ++ String c name ++ "/" ++ String d seg ++ rest)
  = Some (String c name ++ "/" ++ String d seg).
Proof.
  intros Hscope Hname Hseg Hrest. unfold extractNpmPackage.
  change ("https://www.npmjs.com/package/" ++ String c name ++ "/" ++ String d seg ++ rest)
    with ("https://www." ++ "npmjs.com/package/" ++ String c name ++ "/" ++ String d seg ++ rest).
  rewrite !(string_app_cons _ _ ("npmjs.com/package/" ++ _)).
  do 12 (rewrite (exec_skip npmPattern "n" "pmjs.com/package/") by reflexivity).
  change ("" ++ ("npmjs.com/package/" ++ String c name ++ "/" ++ String d seg ++ rest))
    with ("npmjs.com/package/" ++ String c name ++ "/" ++ String d seg ++ rest).
  apply exec_here.
  unfold match_here, npmPattern; cbn [pre grp].
  rewrite rmatch_Lit_app.
  set (s1 := String c name ++ "/" ++ String d seg ++ rest).
  rewrite rmatch_Seq, rmatch_Opt.
  unfold s1 at 1 2.
  rewrite (string_app_cons c name), (rmatch_Lit_other "@" "" c) by exact Hscope.
  rewrite rmatch_Seq. unfold s1 at 1.
  apply (rmatch_Plus_run not_slash_query_hash c name); [exact Hname|reflexivity|].
  rewrite rmatch_Opt, rmatch_Seq.
  change ("/" ++ String d seg ++ rest) with ("/" ++ (String d seg ++ rest)).
  rewrite rmatch_Lit_app.
  rewrite (rmatch_Plus_run not_slash_query_hash d seg rest _
             (String c name ++ "/" ++ String d seg) Hseg Hrest); [reflexivity|].
  unfold s1. rewrite <- (string_app_assoc (String c name) "/" _).
  rewrite <- (string_app_assoc _ (String d seg) rest).
  rewrite substring_take. now rewrite string_app_assoc.
Qed.

Lemma prefix_split (l s : string) :
  String.prefix l s = true -> exists r, s = l ++ r.
Proof.
  revert s. induction l as [|c l IH]; intros s Hp; [now exists s|].
  destruct s as [|d s]; [discriminate Hp|].
  rewrite prefix_cons in Hp. apply andb_true_iff in Hp as [Hc Hp].
  apply Ascii.eqb_eq in Hc as <-.
  destruct (IH s Hp) as [r ->]. now exists r.
Qed.

Lemma rmatch_Lit_Some {A : Type} l s (k : string -> option A) x :
  rmatch (Lit l) s k = Some x -> exists r, s = l ++ r /\ k r = Some x.
Proof.
  cbn [rmatch]. destruct (String.prefix l s) eqn:Hp; [|discriminate].
  destruct (prefix_split l s Hp) as [r ->]. intros Hk. exists r. split; [reflexivity|].
  rewrite substring_skip, string_length_app in Hk.
  replace (String.length l + String.length r - String.length l)%nat
    with (String.length r) in Hk by lia.
  now rewrite substring_all in Hk.
Qed.

(** [[...]+] needs a character of the class to start with, and with one it
    matches as soon as whatever follows can always match. *)
Lemma rmatch_Plus_Some {A : Type} cls s (k : string -> option A) x :
  rmatch (Plus cls) s k = Some x -> exists c t, s = String c t /\ cls c = true.
Proof.
  destruct s as [|c t]; [discriminate|].
  rewrite rmatch_Plus_cons. destruct (cls c) eqn:Hc; [|discriminate].
  intros _. now exists c, t.
Qed.

Lemma rmatch_Plus_total {A : Type} cls c t (k : string -> option A) :
  cls c = true -> (forall s, is_Some (k s)) ->
  is_Some (rmatch (Plus cls) (String c t) k).
Proof.
  intros Hc Hk. rewrite rmatch_Plus_cons, Hc.
  destruct (rmatch (Plus cls) t k); [eauto|apply Hk].
Qed.

Lemma rmatch_Opt_total {A : Type} r s (k : string -> option A) :
  is_Some (k s) -> is_Some (rmatch (Opt r) s k).
Proof.
  intros Hk. rewrite rmatch_Opt. destruct (rmatch r s k); [eauto|exact Hk].
Qed.

(** An attempt succeeds exactly in front of [npmjs.com/package/] followed by
    a character other than [/], [?] and [#]. *)
Lemma npm_match_here_iff s :
  is_Some (match_here npmPattern s) <->
  exists c t, s = "npmjs.com/package/" ++ String c t /\ not_slash_query_hash c = true.
Proof.
  unfold match_here, npmPattern; cbn [pre grp]. split.
  - intros [cap Hcap].
    apply rmatch_Lit_Some in Hcap as (r & -> & Hcap).
    rewrite rmatch_Seq, rmatch_Opt in Hcap.
    assert (Hrun : forall u y,
              rmatch (Seq (Plus not_slash_query_hash)
                        (Opt (Seq (Lit "/") (Plus not_slash_query_hash)))) u
                (fun s2 => Some (String.substring 0 (String.length r - String.length s2) r))
              = Some y ->
              exists c t, u = String c t /\ not_slash_query_hash c = true).
    { intros u y Hy. rewrite rmatch_Seq in Hy. now apply rmatch_Plus_Some in Hy. }
    destruct (rmatch (Lit "@") r _) as [y|] eqn:Hat.
    + apply rmatch_Lit_Some in Hat as (r' & -> & _).
      exists "@"%char, r'. split; reflexivity.
    + destruct (Hrun r cap Hcap) as (c & t & -> & Hc). now exists c, t.
  - intros (c & t & -> & Hc).
    rewrite rmatch_Lit_app, rmatch_Seq. apply rmatch_Opt_total.
    rewrite rmatch_Seq. apply rmatch_Plus_total; [exact Hc|].
    intros u. apply rmatch_Opt_total. eauto.
Qed.

Lemma exec_Some_iff p s :
  is_Some (exec p s) <-> exists before after, s = before ++ after /\ is_Some (match_here p after).
Proof.
  split.
  - induction s as [|c s IH]; cbn [exec].
    + destruct (match_here p "") eqn:H; [|intros [? [=]]].
      intros _. exists "", "". split; [reflexivity|]. rewrite H. eauto.
    + destruct (match_here p (String c s)) eqn:H.
      * intros _. exists "", (String c s). split; [reflexivity|]. rewrite H. eauto.
      * intros Hs. destruct (IH Hs) as (before & after & -> & Hm).
        exists (String c before), after. now split.
  - intros (before & after & -> & Hm).
    induction before as [|c before IH].
    + change ("" ++ after) with after. destruct Hm as [cap Hm].
      rewrite (exec_here p after cap Hm). eauto.
    + rewrite string_app_cons. cbn [exec].
      destruct (match_here p (String c (before ++ after))); [eauto|exact IH].
Qed.

(** X11. A package is extracted exactly from the urls that hold
    [npmjs.com/package/] in front of a character other than [/], [?] and
    [#]. *)
Lemma extractNpmPackage_Some_iff url :
  is_Some (extractNpmPackage url) <->
  exists before c after,
    url = before ++ "npmjs.com/package/" ++ String c after /\
    not_slash_query_hash c = true.
Proof.
  unfold extractNpmPackage. rewrite exec_Some_iff. split.
  - intros (before & after & -> & Hm).
    apply npm_match_here_iff in Hm as (c & t & -> & Hc). now exists before, c, t.
  - intros (before & c & after & -> & Hc).
    exists before, ("npmjs.com/package/" ++ String c after). split; [reflexivity|].
    apply npm_match_here_iff. now exists c, after.
Qed.

End PackageFacts.

(** ** The scripts on the sample inputs *)

Section SampleRuns.

Import JsObject PolyfillMappings NpmStats.

(** Auto-discovery on the sample snapshot: the npm link that both pages of
    the feature carry is kept once. *)
Lemma sample_discovery :
  generateMappings Samples.catalog Samples.getMDNSlug Samples.seeAlsoPolyfills
    Samples.mdnDocsMapping = Samples.discovered.
Proof. vm_compute. reflexivity. Qed.

(** An entry with [exclude], [replace] and [fallbacks] all set removes the
    discovered feature. *)
Lemma exclude_removes_feature_sample :
  get "intersection-observer"
    (mergeOverrides Samples.discovered
       (loadOverrides (Parsed [("intersection-observer", Samples.excludeAll)]))) = None /\
  "intersection-observer" ∉
    keys (mergeOverrides Samples.discovered
            (loadOverrides (Parsed [("intersection-observer", Samples.excludeAll)]))).
Proof.
  apply (exclude_removes_feature Samples.discovered
           (Parsed [("intersection-observer", Samples.excludeAll)])
           "intersection-observer" Samples.excludeAll); reflexivity.
Defined.

(** Replacing by the empty list leaves a record without fallbacks. *)
Lemma replace_sets_exactly_sample :
  get "intersection-observer"
    (mergeOverrides Samples.discovered
       (loadOverrides (Parsed [("intersection-observer", Samples.replaceByNone)])))
  = Some {| Feature.fallbacks := [] |}.
Proof.
  apply (replace_sets_exactly Samples.discovered
           (Parsed [("intersection-observer", Samples.replaceByNone)])
           "intersection-observer" Samples.replaceByNone []); reflexivity.
Defined.

(** The default mode appends, also a url that was discovered already. *)
Lemma augment_appends_sample :
  (forall A, get "intersection-observer" Samples.discovered = Some A ->
     get "intersection-observer"
       (mergeOverrides Samples.discovered
          (loadOverrides (Parsed [("intersection-observer", Samples.augment)])))
     = Some {| Feature.fallbacks :=
                 (Feature.fallbacks A ++ [Samples.otherFallback; Samples.npmFallback])%list |}) /\
  (get "intersection-observer" Samples.discovered = None ->
     get "intersection-observer"
       (mergeOverrides Samples.discovered
          (loadOverrides (Parsed [("intersection-observer", Samples.augment)])))
     = Some {| Feature.fallbacks := [Samples.otherFallback; Samples.npmFallback] |}).
Proof.
  apply (augment_appends Samples.discovered
           (Parsed [("intersection-observer", Samples.augment)])
           "intersection-observer" Samples.augment
           [Samples.otherFallback; Samples.npmFallback]); reflexivity.
Defined.

(** The discovered record of the sample feature has two distinct urls. *)
Lemma discovered_urls_unique_sample :
  NoDup (map Fallback.url [Samples.npmFallback; Samples.githubFallback]).
Proof.
  apply (discovered_urls_unique Samples.catalog Samples.getMDNSlug
           Samples.seeAlsoPolyfills Samples.mdnDocsMapping "intersection-observer"
           {| Feature.fallbacks := [Samples.npmFallback; Samples.githubFallback] |}).
  vm_compute. reflexivity.
Defined.

(** C4, on the code: the keys are sorted before the overrides are merged, so
    a feature that an override adds comes last in [polyfills.json], here
    ["abortable-fetch"] behind ["intersection-observer"]. *)
Theorem override_added_feature_is_last :
  exists final,
    main Samples.catalog Samples.getMDNSlug Samples.seeAlsoPolyfills
      (Some Samples.mdnDocsMapping) true Samples.addsFeature = Done final /\
    keys final = ["intersection-observer"; "abortable-fetch"] /\
    ~ Sorted String.le (keys final).
Proof.
  eexists. split; [reflexivity|]. split; [vm_compute; reflexivity|].
  intros Hsorted.
  assert (Hkeys : keys (mergeOverrides
            (generateMappings Samples.catalog Samples.getMDNSlug
               Samples.seeAlsoPolyfills Samples.mdnDocsMapping)
            (loadOverrides Samples.addsFeature))
          = ["intersection-observer"; "abortable-fetch"]) by (vm_compute; reflexivity).
  rewrite Hkeys in Hsorted.
  apply Sorted_inv in Hsorted as [_ Hhd].
  apply HdRel_inv in Hhd. vm_compute in Hhd. exact Hhd.
Qed.

(** C6, as the claim has it, fails: with a malformed overrides file the run
    is not aborted, and it ends as it does without the file. *)
Lemma malformed_overrides_do_not_abort :
  ~ ((exists msg,
        main Samples.catalog Samples.getMDNSlug Samples.seeAlsoPolyfills
          (Some Samples.mdnDocsMapping) true Malformed = Fatal msg) /\
     main Samples.catalog Samples.getMDNSlug Samples.seeAlsoPolyfills
       (Some Samples.mdnDocsMapping) true Malformed <>
     main Samples.catalog Samples.getMDNSlug Samples.seeAlsoPolyfills
       (Some Samples.mdnDocsMapping) true Missing).
Proof. intros [[msg Hfatal] _]. discriminate Hfatal. Qed.

(** C6, amended. A malformed overrides file is handled as a missing one: in
    both cases the override set is empty, the run goes on and writes the
    auto-discovered mapping as it is. *)
Theorem unreadable_overrides_are_empty
    (features : list string) (getMDNSlug : string -> option string)
    (seeAlsoPolyfills : string -> list Link.t)
    (fetched : option (list (string * list string))) (snapshot : bool) :
  main features getMDNSlug seeAlsoPolyfills fetched snapshot Malformed =
  main features getMDNSlug seeAlsoPolyfills fetched snapshot Missing /\
  forall mdnDocsMapping,
    main features getMDNSlug seeAlsoPolyfills (Some mdnDocsMapping) true Malformed =
    Done (generateMappings features getMDNSlug seeAlsoPolyfills mdnDocsMapping).
Proof. split; [reflexivity|]. intros mdnDocsMapping. reflexivity. Qed.

(** C9, on the code: the optional second segment of the expression is not
    tied to a leading [@], so the path segment behind an unscoped package
    name is taken into the name. *)
Theorem extractNpmPackage_takes_version_segment :
  extractNpmPackage "https://www.npmjs.com/package/core-js/v/3.38.0"
  = Some "core-js/v".
Proof. vm_compute. reflexivity. Qed.

(** What the expression does on the shapes the script's comment names. *)
Lemma extractNpmPackage_samples :
  extractNpmPackage "https://www.npmjs.com/package/intersection-observer"
    = Some "intersection-observer" /\
  extractNpmPackage "https://www.npmjs.com/package/@js-temporal/polyfill?activeTab=readme"
    = Some "@js-temporal/polyfill" /\
  extractNpmPackage "https://www.npmjs.com/package/?q=x https://npmjs.com/package/late#readme"
    = Some "late" /\
  extractNpmPackage "https://github.com/GoogleChromeLabs/intersection-observer"
    = None.
Proof. repeat split; vm_compute; reflexivity. Qed.

(** One week is not yet stale, one millisecond more is; an unknown package
    is always fetched, and so is a package with a bare count. *)
Lemma refresh_sample :
  needsRefresh false Samples.Date_parse 604800001 "intersection-observer"
    Samples.existingStats = true /\
  needsRefresh false Samples.Date_parse 604800000 "intersection-observer"
    Samples.existingStats = false /\
  needsRefresh false Samples.Date_parse 0 "scheduler-polyfill"
    Samples.existingStats = true /\
  needsRefresh false Samples.Date_parse 0 "intersection-observer"
    Samples.legacyStats = true.
Proof. repeat split; vm_compute; reflexivity. Qed.

(** A rate-limited request is repeated after a pause and may then succeed;
    the third rate-limited answer in a row gives up; a success without
    [downloads] gives [undefined]. *)
Lemma fetchPackageStats_retry :
  fetchPackageStats [Http 429 Unreadable; Http 200 (Document (Count 5300%Z))] 0 0
    = (Count 5300%Z, 1500%Z) /\
  fetchPackageStats
    [Http 429 Unreadable; Http 429 Unreadable; Http 429 Unreadable;
     Http 200 (Document (Count 5300%Z))] 0 0
    = (Null, 3750%Z) /\
  fetchPackageStats [Http 200 (Document Undefined)] 0 0 = (Undefined, 0%Z).
Proof. repeat split; reflexivity. Qed.

(** The sample registries never answer a success without [downloads]. *)
Lemma npmApi_answers now p :
  fst (fetchPackageStats (Samples.npmApi p) 0 now) = Null.
Proof. reflexivity. Qed.

Lemma busyApi_answers now p :
  fst (fetchPackageStats (Samples.busyApi p) 0 now) <> Undefined.
Proof.
  unfold Samples.busyApi.
  destruct (String.eqb p "intersection-observer"); discriminate.
Qed.

(** A run on the sample statistics, more than a week after they were
    written: the count of the package is fetched anew, behind a rate
    limit. *)
Lemma refresh_iff_forced_or_stale_sample :
  exists stats,
    fetchAllStats false Samples.Date_parse Samples.toISOString Samples.busyApi
      604800001 ["intersection-observer"] Samples.existingStats = Done stats /\
    (needsRefresh false Samples.Date_parse 604800001 "intersection-observer"
       Samples.existingStats = false ->
     stats !! "intersection-observer" = Samples.existingStats !! "intersection-observer") /\
    ("intersection-observer" ∈
       packagesToRefresh false Samples.Date_parse 604800001 ["intersection-observer"]
         Samples.existingStats ->
     (forall count,
        fst (fetchPackageStats (Samples.busyApi "intersection-observer") 0 604800001)
        = Count count ->
        exists t, (604800001 <= t)%Z /\
          stats !! "intersection-observer" =
          Some (Entry {| downloads := Some count;
                         lastModified := Some (Samples.toISOString t) |})) /\
     (fst (fetchPackageStats (Samples.busyApi "intersection-observer") 0 604800001)
      = Null ->
      falsy (Samples.existingStats !! "intersection-observer") = true ->
      exists t, (604800001 <= t)%Z /\
        stats !! "intersection-observer" =
        Some (Entry {| downloads := None;
                       lastModified := Some (Samples.toISOString t) |}))).
Proof.
  apply (proj2 (proj2 (refresh_iff_forced_or_stale false Samples.Date_parse
           Samples.toISOString Samples.busyApi 604800001 ["intersection-observer"]
           Samples.existingStats "intersection-observer"))).
  intros p _. apply busyApi_answers.
Defined.

(** C10, on the code: [!stats[packageName]] holds of the count 0 as it does
    of a missing value.  On a file in the earlier format with the counts
    1200 and 0, and a registry that answers 404, the count 1200 is carried
    into the result and the count 0 is replaced by a record without a
    count. *)
Theorem failed_fetch_overwrites_zero_count :
  Samples.legacyStats !! "scheduler-polyfill" = Some (Legacy 0) /\
  fst (fetchPackageStats (Samples.npmApi "scheduler-polyfill") 0 0) = Null /\
  exists stats,
    fetchAllStats false Samples.Date_parse Samples.toISOString Samples.npmApi 0
      ["intersection-observer"; "scheduler-polyfill"] Samples.legacyStats
    = Done stats /\
    stats !! "intersection-observer" = Some (Legacy 1200) /\
    stats !! "scheduler-polyfill" =
    Some (Entry {| downloads := None;
                   lastModified := Some "2025-11-10T00:00:00.000Z" |}).
Proof.
  split; [reflexivity|]. split; [reflexivity|].
  eexists. split; [vm_compute; reflexivity|]. split; reflexivity.
Qed.

End SampleRuns.

(** ** More on the overrides: untouched features, ignored entries, key order *)

Section OverrideFacts.

Import JsObject PolyfillMappings.
Implicit Types (mappings auto : list (string * Feature.t))
  (overrides : list (string * Override.t)) (k : string) (ov : Override.t).

(** X1. A feature that the override map does not name keeps the record that
    auto-discovery gave it, or stays absent. *)
Theorem feature_without_override_unchanged auto file k :
  k ∉ keys (loadOverrides file) ->
  get k (mergeOverrides auto (loadOverrides file)) = get k auto.
Proof. apply mergeOverrides_untouched. Qed.

(** X2. An entry without [fallbacks] and without a true [exclude] changes
    nothing, also when it says [replace: true]: replacing needs a list to
    replace by. *)
Theorem override_without_fallbacks_is_noop auto file k ov :
  get k (loadOverrides file) = Some ov ->
  truthy_flag (Override.exclude ov) = false ->
  Override.fallbacks ov = None ->
  get k (mergeOverrides auto (loadOverrides file)) = get k auto.
Proof.
  intros Hget Hex Hnone.
  rewrite (mergeOverrides_at _ _ _ ov (NoDup_keys_loadOverrides file) Hget).
  unfold mergeOverride; simpl. now rewrite Hex, Hnone.
Qed.

Lemma set_absent {V : Type} k (v : V) (o : list (string * V)) :
  k ∉ keys o -> set k v o = (o ++ [(k, v)])%list.
Proof.
  unfold keys. induction o as [|[k' v'] o IH]; simpl; intros Hk; [reflexivity|].
  apply not_elem_of_cons in Hk as [Hne Hk].
  destruct (String.eqb_spec k' k) as [->|_]; [contradiction|].
  now rewrite IH.
Qed.

(** Building an object from the entries of an object gives that object. *)
Lemma fold_set_NoDup {V : Type} (o acc : list (string * V)) :
  NoDup (keys acc ++ keys o) ->
  fold_left (fun o kv => set (fst kv) (snd kv) o) o acc = (acc ++ o)%list.
Proof.
  revert acc. induction o as [|[k v] o IH]; intros acc Hnd; simpl.
  - now rewrite app_nil_r.
  - assert (Hk : k ∉ keys acc).
    { apply NoDup_app in Hnd as (_ & Hdisj & _). intros Hin.
      apply (Hdisj k Hin). left. }
    rewrite set_absent by exact Hk. rewrite IH.
    + now rewrite <- app_assoc.
    + unfold keys in *. rewrite fmap_app. simpl. rewrite <- app_assoc. exact Hnd.
Qed.

Lemma fromEntries_NoDup {V : Type} (o : list (string * V)) :
  NoDup (keys o) -> fromEntries o = o.
Proof. intros Hnd. unfold fromEntries. now rewrite fold_set_NoDup. Qed.

Lemma filter_key_set {V : Type} (P : string -> Prop) `{!forall k, Decision (P k)}
    k (v : V) (o : list (string * V)) :
  filter (fun kv => P (fst kv)) (set k v o) =
  if decide (P k) then set k v (filter (fun kv => P (fst kv)) o)
  else filter (fun kv => P (fst kv)) o.
Proof.
  induction o as [|[k' v'] o IH]; simpl.
  - destruct (decide (P k)) as [HP|HP].
    + now rewrite filter_cons_True.
    + now rewrite filter_cons_False.
  - destruct (String.eqb_spec k' k) as [->|Hne].
    + destruct (decide (P k)) as [HP|HP].
      * rewrite !filter_cons_True by assumption. simpl. now rewrite String.eqb_refl.
      * now rewrite !filter_cons_False by assumption.
    + destruct (decide (P k')) as [HP'|HP'].
      * rewrite !(filter_cons_True _ (k', v')) by assumption. rewrite IH.
        destruct (decide (P k)); [|reflexivity].
        simpl. destruct (String.eqb_spec k' k); [contradiction|reflexivity].
      * rewrite !(filter_cons_False _ (k', v')) by assumption. exact IH.
Qed.

Lemma filter_key_fold_set {V : Type} (P : string -> Prop) `{!forall k, Decision (P k)}
    (l acc : list (string * V)) :
  filter (fun kv => P (fst kv)) (fold_left (fun o kv => set (fst kv) (snd kv) o) l acc) =
  fold_left (fun o kv => set (fst kv) (snd kv) o)
    (filter (fun kv => P (fst kv)) l) (filter (fun kv => P (fst kv)) acc).
Proof.
  revert acc. induction l as [|[k v] l IH]; intros acc; [reflexivity|].
  cbn [fold_left]. rewrite IH. cbn [fst snd]. rewrite filter_key_set.
  destruct (decide (P k)) as [HP|HP].
  - now rewrite filter_cons_True.
  - now rewrite filter_cons_False.
Qed.

(** The overrides object is made of the members whose key does not start
    with an underscore, in the order of the file, a repeated key counting
    where it stands first and with its last value. *)
Lemma loadOverrides_Parsed members :
  loadOverrides (Parsed members) =
  fromEntries (filter (fun kv => negb (JsString.startsWith (fst kv) "_")) members).
Proof.
  unfold loadOverrides.
  pose proof (filter_key_fold_set (fun k => negb (JsString.startsWith k "_"))
                members []) as Hfilter.
  cbv beta in Hfilter. unfold fromEntries at 2. rewrite Hfilter.
  rewrite filter_nil. apply fromEntries_NoDup.
  apply NoDup_keys_fold_set. apply NoDup_nil_2.
Qed.

(** X3. Members of the overrides file whose key starts with an underscore
    are comments: the run writes what it writes for the file without them,
    whatever they hold. *)
Theorem underscore_members_are_ignored
    (features : list string) (getMDNSlug : string -> option string)
    (seeAlsoPolyfills : string -> list Link.t)
    (fetched : option (list (string * list string))) (snapshot : bool)
    (members : list (string * Override.t)) :
  main features getMDNSlug seeAlsoPolyfills fetched snapshot (Parsed members) =
  main features getMDNSlug seeAlsoPolyfills fetched snapshot
    (Parsed (filter (fun kv => negb (JsString.startsWith (fst kv) "_")) members)).
Proof.
  unfold main. destruct fetched as [mdn|]; [|reflexivity].
  destruct snapshot; [|reflexivity].
  rewrite !loadOverrides_Parsed. now rewrite list_filter_filter_l by auto.
Qed.

End OverrideFacts.

(** ** The keys of the merged mapping *)

Section KeyOrder.

Import JsObject PolyfillMappings.
Implicit Types (mappings auto : list (string * Feature.t))
  (overrides : list (string * Override.t)) (k : string) (ov : Override.t).

(** The entry of [k] removes the feature. *)
Local Abbreviation excludes overrides k :=
  (match get k overrides with
   | Some ov => truthy_flag (Override.exclude ov)
   | None => false
   end).

(** The entry of [k] writes a record. *)
Local Abbreviation writes overrides k :=
  (match get k overrides with
   | Some ov =>
       negb (truthy_flag (Override.exclude ov)) &&
       bool_decide (is_Some (Override.fallbacks ov))
   | None => false
   end).

Lemma filter_ext_elem {A : Type} (P1 P2 : A -> Prop)
    `{!forall x, Decision (P1 x), !forall x, Decision (P2 x)} (l : list A) :
  (forall x, x ∈ l -> (P1 x <-> P2 x)) -> filter P1 l = filter P2 l.
Proof.
  induction l as [|a l IH]; intros Hiff; [reflexivity|].
  assert (Ha : P1 a <-> P2 a) by (apply Hiff; left).
  assert (Hl : filter P1 l = filter P2 l) by (apply IH; intros x Hx; apply Hiff; now right).
  destruct (decide (P1 a)) as [H1|H1].
  - rewrite !filter_cons_True by tauto. now rewrite Hl.
  - rewrite !filter_cons_False by tauto. exact Hl.
Qed.

Lemma filter_all {A : Type} (P : A -> Prop) `{!forall x, Decision (P x)} (l : list A) :
  (forall x, x ∈ l -> P x) -> filter P l = l.
Proof.
  induction l as [|a l IH]; intros Hall; [reflexivity|].
  rewrite filter_cons_True by (apply Hall; left).
  rewrite IH; [reflexivity|]. intros x Hx. apply Hall. now right.
Qed.

Lemma mergeOverride_keys mappings k ov :
  keys (mergeOverride mappings (k, ov)) =
  if truthy_flag (Override.exclude ov) then filter (fun k' => k' <> k) (keys mappings)
  else if bool_decide (is_Some (Override.fallbacks ov)) && bool_decide (k ∉ keys mappings)
       then (keys mappings ++ [k])%list
       else keys mappings.
Proof.
  unfold mergeOverride; simpl.
  destruct (truthy_flag (Override.exclude ov)); [apply keys_delete|].
  destruct (Override.fallbacks ov) as [F|]; simpl; [|reflexivity].
  destruct (decide (k ∈ keys mappings)) as [Hin|Hin].
  - rewrite bool_decide_false by (intros H; contradiction).
    destruct (truthy_flag (Override.replace ov)); [now apply keys_set_present|].
    destruct (get k mappings); now apply keys_set_present.
  - rewrite bool_decide_true by assumption.
    destruct (truthy_flag (Override.replace ov)); [now apply keys_set_absent|].
    destruct (get k mappings); now apply keys_set_absent.
Qed.

Lemma mergeOverrides_keys overrides auto :
  NoDup (keys overrides) ->
  keys (mergeOverrides auto overrides) =
  (filter (fun k => excludes overrides k = false) (keys auto) ++
   filter (fun k => (k ∉ keys auto) /\ writes overrides k = true) (keys overrides))%list.
Proof.
  unfold mergeOverrides.
  revert auto. induction overrides as [|[k ov] overrides IH]; intros auto Hnd.
  - simpl. rewrite app_nil_r. symmetry. apply filter_all. now intros.
  - cbn [fold_left]. unfold keys in Hnd. simpl in Hnd.
    apply NoDup_cons in Hnd as [Hk Hnd]. fold (keys overrides) in Hk, Hnd.
    rewrite (IH _ Hnd). clear IH.
    assert (Hother : forall k', k' <> k ->
              get k' ((k, ov) :: overrides) = get k' overrides).
    { intros k' Hne. simpl. destruct (String.eqb_spec k k'); [congruence|reflexivity]. }
    assert (Hhead : get k ((k, ov) :: overrides) = Some ov).
    { simpl. now rewrite String.eqb_refl. }
    assert (Hknone : get k overrides = None) by now apply get_None_keys.
    change (keys ((k, ov) :: overrides)) with (k :: keys overrides).
    rewrite mergeOverride_keys.
    destruct (truthy_flag (Override.exclude ov)) eqn:Hex.
    + (* the entry removes [k] *)
      rewrite filter_cons_False by (rewrite Hhead, Hex; simpl; intros [_ H]; discriminate).
      f_equal.
      * rewrite list_filter_filter. apply list_filter_iff. intros k'. split.
        -- intros [H Hne]. now rewrite Hother.
        -- intros H. destruct (decide (k' = k)) as [->|Hne].
           ++ rewrite Hhead, Hex in H. discriminate.
           ++ rewrite Hother in H by assumption. now split.
      * apply filter_ext_elem. intros k' Hk'.
        assert (Hne : k' <> k) by (intros ->; contradiction).
        rewrite Hother by assumption. rewrite list_elem_of_filter. intuition.
    + destruct (bool_decide (is_Some (Override.fallbacks ov))) eqn:Hfb; cbn [andb].
      * destruct (decide (k ∈ keys auto)) as [Hin|Hin].
        -- (* the entry rewrites a record that is there *)
           rewrite bool_decide_false by (intros H; contradiction).
           rewrite filter_cons_False by (intros [H _]; contradiction).
           f_equal.
           ++ apply filter_ext_elem. intros k' Hk'.
              destruct (decide (k' = k)) as [->|Hne].
              ** rewrite Hhead, Hex, Hknone. tauto.
              ** now rewrite Hother.
           ++ apply filter_ext_elem. intros k' Hk'.
              assert (Hne : k' <> k) by (intros ->; contradiction).
              now rewrite Hother.
        -- (* the entry adds [k] at the end *)
           rewrite bool_decide_true by assumption.
           rewrite filter_cons_True by (rewrite Hhead, Hex, Hfb; now split).
           rewrite filter_app, filter_cons_True, filter_nil by (now rewrite Hknone).
           rewrite <- app_assoc. cbn [app]. f_equal.
           ++ apply filter_ext_elem. intros k' Hk'.
              assert (Hne : k' <> k) by (intros ->; contradiction).
              now rewrite Hother.
           ++ f_equal. apply filter_ext_elem. intros k' Hk'.
              assert (Hne : k' <> k) by (intros ->; contradiction).
              rewrite Hother by assumption. rewrite elem_of_app, list_elem_of_singleton.
              intuition.
      * (* the entry changes nothing *)
        rewrite filter_cons_False by (rewrite Hhead, Hex, Hfb; simpl; intros [_ H]; discriminate).
        f_equal.
        -- apply filter_ext_elem. intros k' Hk'.
           destruct (decide (k' = k)) as [->|Hne].
           ++ rewrite Hhead, Hex, Hknone. tauto.
           ++ now rewrite Hother.
        -- apply filter_ext_elem. intros k' Hk'.
           assert (Hne : k' <> k) by (intros ->; contradiction).
           now rewrite Hother.
Qed.

(** X9. The keys of the merged mapping, in the order they are written: the
    auto-discovered keys that no entry excludes, in their order, and behind
    them the features that an entry adds, in the order of the overrides. *)
Theorem merged_keys_order auto file :
  keys (mergeOverrides auto (loadOverrides file)) =
  (filter (fun k => excludes (loadOverrides file) k = false) (keys auto) ++
   filter (fun k => (k ∉ keys auto) /\ writes (loadOverrides file) k = true)
     (keys (loadOverrides file)))%list.
Proof. apply mergeOverrides_keys, NoDup_keys_loadOverrides. Qed.

End KeyOrder.

(** ** More on auto-discovery: what each feature gets *)

Section DiscoveryRecords.

Import JsObject PolyfillMappings.

Variable features : list string.
Variable getMDNSlug : string -> option string.
Variable seeAlsoPolyfills : string -> list Link.t.
Implicit Types (mappings : list (string * Feature.t))
  (mdnDocsMapping : list (string * list string)).

(** The record that the loop writes for a feature, if any. *)
Local Abbreviation recordOf mdnDocsMapping featureId :=
  (match discoverFallbacks seeAlsoPolyfills
           (slugsOf getMDNSlug mdnDocsMapping featureId) with
   | Some fallbacks => Some {| Feature.fallbacks := fallbacks |}
   | None => None
   end).

Lemma discover_record mdnDocsMapping mappings featureId :
  discover getMDNSlug seeAlsoPolyfills mdnDocsMapping mappings featureId =
  match recordOf mdnDocsMapping featureId with
  | Some rec => set featureId rec mappings
  | None => mappings
  end.
Proof.
  unfold discover.
  destruct (slugsOf getMDNSlug mdnDocsMapping featureId) as [|slug slugs]; [reflexivity|].
  now destruct (discoverFallbacks seeAlsoPolyfills (slug :: slugs)).
Qed.

Lemma get_discovered mdnDocsMapping (ids : list string) mappings k :
  get k (fold_left (discover getMDNSlug seeAlsoPolyfills mdnDocsMapping) ids mappings) =
  if decide (k ∈ ids) then
    match recordOf mdnDocsMapping k with
    | Some rec => Some rec
    | None => get k mappings
    end
  else get k mappings.
Proof.
  revert mappings. induction ids as [|i ids IH]; intros mappings.
  - now rewrite decide_False by apply not_elem_of_nil.
  - cbn [fold_left]. rewrite IH, discover_record.
    destruct (decide (k = i)) as [->|Hne].
    + rewrite (decide_True (P := i ∈ i :: ids)) by left.
      destruct (recordOf mdnDocsMapping i) as [rec|] eqn:Hrec.
      * rewrite get_set_eq. now destruct (decide (i ∈ ids)).
      * now destruct (decide (i ∈ ids)).
    + assert (Hget : get k
                (match recordOf mdnDocsMapping i with
                 | Some rec => set i rec mappings
                 | None => mappings
                 end) = get k mappings).
      { destruct (recordOf mdnDocsMapping i); [now apply get_set_ne|reflexivity]. }
      rewrite Hget.
      destruct (decide (k ∈ ids)) as [Hin|Hin].
      * now rewrite decide_True by (now right).
      * rewrite decide_False; [reflexivity|].
        intros H. apply elem_of_cons in H as [H|H]; contradiction.
Qed.

Lemma get_sort_fold mappings (ks : list string) acc k :
  get k (fold_left
           (fun sorted key =>
              match get key mappings with
              | Some v => set key v sorted
              | None => sorted
              end) ks acc) =
  if decide (k ∈ ks) then
    match get k mappings with
    | Some v => Some v
    | None => get k acc
    end
  else get k acc.
Proof.
  revert acc. induction ks as [|i ks IH]; intros acc.
  - now rewrite decide_False by apply not_elem_of_nil.
  - cbn [fold_left]. rewrite IH.
    destruct (decide (k = i)) as [->|Hne].
    + rewrite (decide_True (P := i ∈ i :: ks)) by left.
      destruct (get i mappings) as [v|] eqn:Hv.
      * rewrite get_set_eq. now destruct (decide (i ∈ ks)).
      * now destruct (decide (i ∈ ks)).
    + assert (Hget : get k
                (match get i mappings with
                 | Some v => set i v acc
                 | None => acc
                 end) = get k acc).
      { destruct (get i mappings); [now apply get_set_ne|reflexivity]. }
      rewrite Hget.
      destruct (decide (k ∈ ks)) as [Hin|Hin].
      * now rewrite decide_True by (now right).
      * rewrite decide_False; [reflexivity|].
        intros H. apply elem_of_cons in H as [H|H]; contradiction.
Qed.

(** Sorting neither loses nor changes a record. *)
Lemma get_sortByFeatureId mappings k :
  get k (sortByFeatureId mappings) = get k mappings.
Proof.
  unfold sortByFeatureId. rewrite get_sort_fold.
  destruct (decide (k ∈ merge_sort String.le (keys mappings))) as [Hin|Hin].
  - now destruct (get k mappings).
  - rewrite merge_sort_Permutation in Hin. apply get_None_keys in Hin.
    now rewrite Hin.
Qed.

Lemma get_generateMappings mdnDocsMapping k :
  get k (generateMappings features getMDNSlug seeAlsoPolyfills mdnDocsMapping) =
  if decide (k ∈ features) then recordOf mdnDocsMapping k else None.
Proof.
  unfold generateMappings. rewrite get_sortByFeatureId, get_discovered.
  destruct (decide (k ∈ features)); [|reflexivity].
  now destruct (recordOf mdnDocsMapping k).
Qed.

(** X4. What the run writes for a feature that no override names: for a
    feature of the catalogue, the fallbacks made of the links of its pages,
    each url once, when there is a link at all; nothing otherwise. *)
Theorem written_record_without_override mdnDocsMapping file featureId :
  featureId ∉ keys (loadOverrides file) ->
  exists final,
    main features getMDNSlug seeAlsoPolyfills (Some mdnDocsMapping) true file
      = Done final /\
    get featureId final =
      if decide (featureId ∈ features) then
        match flat_map (findPolyfills seeAlsoPolyfills)
                (slugsOf getMDNSlug mdnDocsMapping featureId) with
        | [] => None
        | links => Some {| Feature.fallbacks := map toFallback (uniqueLinks links) |}
        end
      else None.
Proof.
  intros Hk. eexists. split; [reflexivity|].
  rewrite mergeOverrides_untouched by exact Hk.
  rewrite get_generateMappings. destruct (decide (featureId ∈ features)); [|reflexivity].
  unfold discoverFallbacks.
  now destruct (flat_map (findPolyfills seeAlsoPolyfills)
                  (slugsOf getMDNSlug mdnDocsMapping featureId)).
Qed.

Lemma uniqueLinks_nonempty (l : Link.t) links : uniqueLinks (l :: links) <> [].
Proof.
  unfold uniqueLinks, values, fromEntries. cbn [map fold_left set fst snd].
  assert (H : forall (es acc : list (string * Link.t)),
             acc <> [] -> fold_left (fun o kv => set (fst kv) (snd kv) o) es acc <> []).
  { induction es as [|e es IH]; intros acc Hacc; [exact Hacc|].
    cbn [fold_left]. apply IH. destruct acc as [|[k v] acc]; [contradiction|].
    simpl. now destruct (String.eqb k (fst e)). }
  specialize (H (map (fun link => (Link.url link, link)) links)
                [(Link.url l, l)]).
  intros Hnil. apply fmap_nil_inv in Hnil. apply H in Hnil; [exact Hnil|discriminate].
Qed.

Lemma uniqueLinks_subset (links : list Link.t) l :
  l ∈ uniqueLinks links -> l ∈ links.
Proof.
  unfold uniqueLinks, values, fromEntries.
  assert (H : forall (ls : list Link.t) (acc : list (string * Link.t)),
             (forall kv, kv ∈ acc -> snd kv ∈ links) ->
             (forall x, x ∈ ls -> x ∈ links) ->
             forall kv,
               kv ∈ fold_left (fun o kv => set (fst kv) (snd kv) o)
                      (map (fun link => (Link.url link, link)) ls) acc ->
               snd kv ∈ links).
  { induction ls as [|x ls IH]; intros acc Hacc Hls kv; [apply Hacc|].
    cbn [map fold_left fst snd]. apply IH.
    - clear -Hacc Hls. induction acc as [|[k v] acc IHacc]; simpl; intros kv Hkv.
      + apply list_elem_of_singleton in Hkv as ->. apply Hls. left.
      + destruct (String.eqb k (Link.url x)).
        * apply elem_of_cons in Hkv as [->|Hkv]; [apply Hls; left|].
          apply Hacc. now right.
        * apply elem_of_cons in Hkv as [->|Hkv]; [apply (Hacc (k, v)); left|].
          apply IHacc; [|exact Hkv]. intros kv' Hkv'. apply Hacc. now right.
    - intros y Hy. apply Hls. now right. }
  intros Hl. apply list_elem_of_fmap in Hl as (kv & -> & Hkv).
  eapply (H links []); [|auto|exact Hkv].
  intros kv' Hkv'. now apply elem_of_nil in Hkv'.
Qed.

(** X8. Auto-discovery returns its keys in ascending order, each once. *)
Theorem discovered_keys_ascending mdnDocsMapping :
  Sorted String.le
    (keys (generateMappings features getMDNSlug seeAlsoPolyfills mdnDocsMapping)) /\
  NoDup (keys (generateMappings features getMDNSlug seeAlsoPolyfills mdnDocsMapping)).
Proof.
  assert (Hnd : NoDup (keys (fold_left
            (discover getMDNSlug seeAlsoPolyfills mdnDocsMapping) features []))).
  { apply discover_NoDup_keys, NoDup_nil_2. }
  unfold generateMappings. rewrite keys_sortByFeatureId by exact Hnd. split.
  - apply Sorted_merge_sort. apply _.
  - now rewrite merge_sort_Permutation.
Qed.

(** X5. A record that auto-discovery returns belongs to a feature of the
    catalogue, has at least one fallback, every fallback is of type
    ["polyfill"], and its url is the url of a link on one of the pages of the
    feature. *)
Theorem discovered_record_shape mdnDocsMapping featureId rec :
  get featureId (generateMappings features getMDNSlug seeAlsoPolyfills mdnDocsMapping)
    = Some rec ->
  featureId ∈ features /\
  Feature.fallbacks rec <> [] /\
  forall fallback, fallback ∈ Feature.fallbacks rec ->
    Fallback.type fallback = "polyfill" /\
    exists slug link,
      slug ∈ slugsOf getMDNSlug mdnDocsMapping featureId /\
      link ∈ findPolyfills seeAlsoPolyfills slug /\
      Fallback.url fallback = Link.url link.
Proof.
  rewrite get_generateMappings.
  destruct (decide (featureId ∈ features)) as [Hin|]; [|discriminate].
  unfold discoverFallbacks.
  destruct (flat_map (findPolyfills seeAlsoPolyfills)
              (slugsOf getMDNSlug mdnDocsMapping featureId)) as [|l links] eqn:Hlinks;
    [discriminate|].
  intros [= <-]. cbn [Feature.fallbacks]. split; [exact Hin|]. split.
  - intros Hnil. apply fmap_nil_inv in Hnil. now apply uniqueLinks_nonempty in Hnil.
  - intros fallback Hfb. apply list_elem_of_fmap in Hfb as (link & -> & Hlink).
    split; [reflexivity|].
    apply uniqueLinks_subset in Hlink. rewrite <- Hlinks in Hlink.
    apply list_elem_of_In, in_flat_map in Hlink as (slug & Hslug & Hlink).
    exists slug, link. repeat split; now apply list_elem_of_In.
Qed.

End DiscoveryRecords.

(** X6. The remote mapping goes first: for a feature it lists, the
    compatibility data is not asked, and a feature it lists without any
    document is left out even when the compatibility data knows a page. *)
Theorem remote_mapping_takes_priority
    (features : list string) (getMDNSlug otherSlug : string -> option string)
    (seeAlsoPolyfills : string -> list Link.t)
    (mdnDocsMapping : list (string * list string)) (featureId : string)
    (docs : list string) :
  JsObject.get featureId mdnDocsMapping = Some docs ->
  JsObject.get featureId
    (PolyfillMappings.generateMappings features getMDNSlug seeAlsoPolyfills mdnDocsMapping) =
  JsObject.get featureId
    (PolyfillMappings.generateMappings features otherSlug seeAlsoPolyfills mdnDocsMapping) /\
  (docs = [] ->
   JsObject.get featureId
     (PolyfillMappings.generateMappings features getMDNSlug seeAlsoPolyfills mdnDocsMapping)
   = None).
Proof.
  intros Hdocs.
  assert (Hslugs : forall g, PolyfillMappings.slugsOf g mdnDocsMapping featureId = docs).
  { intros g. unfold PolyfillMappings.slugsOf. now rewrite Hdocs. }
  split.
  - rewrite !get_generateMappings. now rewrite !Hslugs.
  - intros ->. rewrite get_generateMappings, Hslugs.
    now destruct (decide (featureId ∈ features)).
Qed.

(** ** Which link survives the deduplication *)

Section UniqueLinks.

Import JsObject PolyfillMappings.

Lemma fromEntries_snoc {V : Type} (l : list (string * V)) k v :
  fromEntries (l ++ [(k, v)]) = set k v (fromEntries l).
Proof. unfold fromEntries. now rewrite fold_left_app. Qed.

(** The [Map] holds, under a url, the last link that has it. *)
Lemma get_links_last (links : list Link.t) u link :
  get u (fromEntries (map (fun l => (Link.url l, l)) links)) = Some link <->
  exists before after,
    links = (before ++ link :: after)%list /\ Link.url link = u /\
    forall l, l ∈ after -> Link.url l <> u.
Proof.
  induction links as [|x links IH] using rev_ind.
  - simpl. split; [discriminate|]. intros (before & after & H & _).
    now destruct before.
  - rewrite map_app. cbn [map]. rewrite fromEntries_snoc.
    destruct (decide (Link.url x = u)) as [Hx|Hx].
    + rewrite <- Hx, get_set_eq. split.
      * intros [= ->]. exists links, []. split; [reflexivity|]. split; [reflexivity|].
        intros l Hl. now apply elem_of_nil in Hl.
      * intros (before & after & Heq & Hu & Hafter).
        destruct after as [|y after _] using rev_ind.
        -- apply app_inj_tail in Heq as [_ ->]. reflexivity.
        -- exfalso. rewrite app_comm_cons, app_assoc in Heq.
           apply app_inj_tail in Heq as [_ ->].
           apply (Hafter y); [|congruence].
           apply elem_of_app. right. left.
    + rewrite get_set_ne by congruence. rewrite IH. split.
      * intros (before & after & -> & Hu & Hafter).
        exists before, (after ++ [x])%list. split; [now rewrite <- app_assoc|].
        split; [exact Hu|]. intros l Hl.
        apply elem_of_app in Hl as [Hl|Hl]; [now apply Hafter|].
        apply list_elem_of_singleton in Hl as ->. exact Hx.
      * intros (before & after & Heq & Hu & Hafter).
        destruct after as [|y after _] using rev_ind.
        -- apply app_inj_tail in Heq as [_ ->]. contradiction.
        -- rewrite app_comm_cons, app_assoc in Heq.
           apply app_inj_tail in Heq as [-> ->].
           exists before, after. split; [reflexivity|]. split; [exact Hu|].
           intros l Hl. apply Hafter. apply elem_of_app. now left.
Qed.

(** X7. Of the links that share a url the deduplication keeps the last one
    found, so the description of a fallback comes from the last page that
    links to it; a link is in the result exactly when no later link has its
    url. *)
Theorem uniqueLinks_keeps_last (links : list Link.t) (link : Link.t) :
  link ∈ uniqueLinks links <->
  exists before after,
    links = (before ++ link :: after)%list /\
    forall l, l ∈ after -> Link.url l <> Link.url link.
Proof.
  unfold uniqueLinks, values.
  set (o := fromEntries (map (fun l => (Link.url l, l)) links)).
  assert (Hnd : NoDup (keys o)) by apply NoDup_keys_fromEntries.
  assert (Hkeyed : Forall (fun kv => fst kv = Link.url (snd kv)) o).
  { apply links_keyed. constructor. }
  split.
  - intros Hin. apply list_elem_of_fmap in Hin as ([u l] & -> & Hkv).
    assert (Hu : u = Link.url l).
    { eapply Forall_forall in Hkeyed; [|exact Hkv]. exact Hkeyed. }
    apply (elem_get_NoDup _ _ _ Hnd) in Hkv. apply get_links_last in Hkv.
    destruct Hkv as (before & after & Heq & _ & Hafter).
    exists before, after. split; [exact Heq|]. simpl. now rewrite <- Hu.
  - intros (before & after & Heq & Hafter).
    assert (Hget : get (Link.url link) o = Some link).
    { apply get_links_last. now exists before, after. }
    apply get_Some_elem in Hget.
    apply list_elem_of_fmap. now exists (Link.url link, link).
Qed.

End UniqueLinks.

(** ** More on the extraction of packages and repositories *)

Section ExtractionFacts.

Import JsString Regex PolyfillMappings.

Local Abbreviation stops cls rest :=
  (match rest with
   | "" => True
   | String d _ => cls d = false
   end).

Local Abbreviation all_in cls s :=
  (Forall (fun a => cls a = true) (list_ascii_of_string s)).

(** The scan passes any text in which the literal cannot start. *)
Lemma exec_skip_all p c l before s :
  pre p = Lit (String c l) ->
  Forall (fun a => Ascii.eqb c a = false) (list_ascii_of_string before) ->
  exec p (before ++ s) = exec p s.
Proof.
  intros Hpre. induction before as [|a before IH]; intros Hall; [reflexivity|].
  cbn [list_ascii_of_string] in Hall. apply Forall_cons in Hall as [Ha Hall].
  rewrite string_app_cons, (exec_skip p c l) by assumption. now apply IH.
Qed.

(** The group of [npmPattern] on a first segment, a slash and a second
    segment takes both, whether the first starts with [@] or not. *)
Lemma npm_group_two_segments c name d seg rest :
  all_in not_slash_query_hash (String c name) ->
  all_in not_slash_query_hash (String d seg) ->
  stops not_slash_query_hash rest ->
  match_here npmPattern
    ("npmjs.com/package/" ++ String c name ++ "/" ++ String d seg ++ rest)
  = Some (String c name ++ "/" ++ String d seg).
Proof.
  intros Hname Hseg Hrest.
  unfold match_here, npmPattern; cbn [pre grp].
  rewrite rmatch_Lit_app.
  set (s1 := String c name ++ "/" ++ String d seg ++ rest).
  set (K2 := fun s2 : string =>
               Some (String.substring 0 (String.length s1 - String.length s2) s1)).
  assert (Hcap : K2 rest = Some (String c name ++ "/" ++ String d seg)).
  { unfold K2, s1. rewrite <- (string_app_assoc (String c name) "/" _).
    rewrite <- (string_app_assoc _ (String d seg) rest).
    rewrite substring_take. now rewrite string_app_assoc. }
  assert (Htail : rmatch (Opt (Seq (Lit "/") (Plus not_slash_query_hash)))
                    ("/" ++ String d seg ++ rest) K2
                  = Some (String c name ++ "/" ++ String d seg)).
  { rewrite rmatch_Opt, rmatch_Seq.
    change ("/" ++ String d seg ++ rest) with ("/" ++ (String d seg ++ rest)).
    rewrite rmatch_Lit_app.
    now rewrite (rmatch_Plus_run not_slash_query_hash d seg rest _ _ Hseg Hrest Hcap). }
  assert (Hplain : forall c' name',
            all_in not_slash_query_hash (String c' name') ->
            rmatch (Seq (Plus not_slash_query_hash)
                      (Opt (Seq (Lit "/") (Plus not_slash_query_hash))))
              (String c' name' ++ "/" ++ String d seg ++ rest) K2
            = Some (String c name ++ "/" ++ String d seg)).
  { intros c' name' Hall. rewrite rmatch_Seq.
    apply (rmatch_Plus_run not_slash_query_hash c' name'); [exact Hall|reflexivity|].
    exact Htail. }
  rewrite rmatch_Seq, rmatch_Opt.
  destruct (rmatch (Lit "@") s1 _) as [cap|] eqn:Hat.
  - (* the leading [@] was taken on its own *)
    apply rmatch_Lit_Some in Hat as (r & Hr & Hcapr).
    unfold s1 in Hr. rewrite (string_app_cons c name) in Hr.
    change ("@" ++ r) with (String "@" r) in Hr. injection Hr as -> <-.
    destruct name as [|c' name'].
    + change ("" ++ "/" ++ String d seg ++ rest) with ("/" ++ String d seg ++ rest) in Hcapr.
      rewrite rmatch_Seq in Hcapr.
      rewrite rmatch_Plus_stop in Hcapr by reflexivity. discriminate Hcapr.
    + cbn [list_ascii_of_string] in Hname. apply Forall_cons in Hname as [_ Hname].
      rewrite (Hplain c' name' Hname) in Hcapr. congruence.
  - now apply Hplain.
Qed.

(** The group of [npmPattern] on a single segment. *)
Lemma npm_group_one_segment c name rest :
  all_in not_slash_query_hash (String c name) ->
  stops not_slash_query_hash rest ->
  (forall rest', rest = "/" ++ rest' -> stops not_slash_query_hash rest') ->
  match_here npmPattern ("npmjs.com/package/" ++ String c name ++ rest)
  = Some (String c name).
Proof.
  intros Hname Hrest Hslash.
  unfold match_here, npmPattern; cbn [pre grp].
  rewrite rmatch_Lit_app.
  set (s1 := String c name ++ rest).
  set (K2 := fun s2 : string =>
               Some (String.substring 0 (String.length s1 - String.length s2) s1)).
  assert (Hcap : K2 rest = Some (String c name)).
  { unfold K2, s1. now rewrite substring_take. }
  assert (Htail : rmatch (Opt (Seq (Lit "/") (Plus not_slash_query_hash))) rest K2
                  = Some (String c name)).
  { rewrite rmatch_Opt, rmatch_Seq.
    destruct (rmatch (Lit "/") rest _) as [cap|] eqn:Hlit; [|exact Hcap].
    apply rmatch_Lit_Some in Hlit as (rest' & Hr & Hplus).
    rewrite rmatch_Plus_stop in Hplus by (now apply Hslash). discriminate Hplus. }
  assert (Hplain : forall c' name',
            all_in not_slash_query_hash (String c' name') ->
            rmatch (Seq (Plus not_slash_query_hash)
                      (Opt (Seq (Lit "/") (Plus not_slash_query_hash))))
              (String c' name' ++ rest) K2
            = Some (String c name)).
  { intros c' name' Hall. rewrite rmatch_Seq.
    apply (rmatch_Plus_run not_slash_query_hash c' name'); [exact Hall|exact Hrest|].
    exact Htail. }
  rewrite rmatch_Seq, rmatch_Opt.
  destruct (rmatch (Lit "@") s1 _) as [cap|] eqn:Hat.
  - apply rmatch_Lit_Some in Hat as (r & Hr & Hcapr).
    unfold s1 in Hr. rewrite (string_app_cons c name) in Hr.
    change ("@" ++ r) with (String "@" r) in Hr. injection Hr as -> <-.
    destruct name as [|c' name'].
    + change ("" ++ rest) with rest in Hcapr.
      rewrite rmatch_Seq in Hcapr.
      rewrite rmatch_Plus_stop in Hcapr by exact Hrest. discriminate Hcapr.
    + cbn [list_ascii_of_string] in Hname. apply Forall_cons in Hname as [_ Hname].
      rewrite (Hplain c' name' Hname) in Hcapr. congruence.
  - now apply Hplain.
Qed.

(** X12. A url of a scoped package gives the package with its scope,
    [@scope/name], whatever query, fragment or further path follows. *)
Theorem extractNpmPackage_scoped before c scope d name rest :
  Forall (fun a => Ascii.eqb "n" a = false) (list_ascii_of_string before) ->
  all_in not_slash_query_hash (String c scope) ->
  all_in not_slash_query_hash (String d name) ->
  stops not_slash_query_hash rest ->
  extractNpmPackage
    (before ++ "npmjs.com/package/" ++ "@" ++ String c scope ++ "/" ++ String d name ++ rest)
  = Some ("@" ++ String c scope ++ "/" ++ String d name).
Proof.
  intros Hbefore Hscope Hname Hrest. unfold extractNpmPackage.
  rewrite (exec_skip_all npmPattern "n" "pmjs.com/package/") by (reflexivity || assumption).
  apply exec_here.
  change ("@" ++ String c scope ++ "/" ++ String d name ++ rest)
    with (String "@" (String c scope) ++ "/" ++ String d name ++ rest).
  change ("@" ++ String c scope ++ "/" ++ String d name)
    with (String "@" (String c scope) ++ "/" ++ String d name).
  apply npm_group_two_segments; [|exact Hname|exact Hrest].
  cbn [list_ascii_of_string]. constructor; [reflexivity|exact Hscope].
Qed.

(** X13. A url of a package without scope, with nothing, a query, a fragment
    or a closing slash behind the name, gives the name. *)
Theorem extractNpmPackage_plain before c name rest :
  Forall (fun a => Ascii.eqb "n" a = false) (list_ascii_of_string before) ->
  all_in not_slash_query_hash (String c name) ->
  stops not_slash_query_hash rest ->
  (forall rest', rest = "/" ++ rest' -> stops not_slash_query_hash rest') ->
  extractNpmPackage (before ++ "npmjs.com/package/" ++ String c name ++ rest)
  = Some (String c name).
Proof.
  intros Hbefore Hname Hrest Hslash. unfold extractNpmPackage.
  rewrite (exec_skip_all npmPattern "n" "pmjs.com/package/") by (reflexivity || assumption).
  apply exec_here. now apply npm_group_one_segment.
Qed.

Lemma endsWith_app s : endsWith (s ++ ".git") ".git" = true.
Proof.
  unfold endsWith. rewrite string_length_app.
  change (String.length ".git") with 4%nat.
  replace (String.length s + 4 - 4)%nat with (String.length s) by lia.
  rewrite substring_skip. cbn [String.substring]. rewrite String.eqb_refl.
  rewrite andb_true_r. apply Nat.leb_le. lia.
Qed.

(** X15. A closing [.git] is cut off, once. *)
Theorem dropGitSuffix_app s : dropGitSuffix (s ++ ".git") = s.
Proof.
  unfold dropGitSuffix. rewrite endsWith_app, string_length_app.
  change (String.length ".git") with 4%nat.
  replace (String.length s + 4 - 4)%nat
    with (String.length (s ++ ".git") - String.length ".git")%nat
    by (rewrite string_length_app; reflexivity).
  apply substring_take.
Qed.

(** X14. A url of a repository gives [owner/repo]: the first two segments
    behind [github.com/], without a closing [.git]; what follows them, a
    deeper path, a query or a fragment, is dropped. *)
Theorem extractGithubRepo_owner_repo before c owner d repo rest :
  Forall (fun a => Ascii.eqb "g" a = false) (list_ascii_of_string before) ->
  all_in not_slash (String c owner) ->
  all_in not_slash_query_hash (String d repo) ->
  stops not_slash_query_hash rest ->
  extractGithubRepo (before ++ "github.com/" ++ String c owner ++ "/" ++ String d repo ++ rest)
  = Some (dropGitSuffix (String c owner ++ "/" ++ String d repo)).
Proof.
  intros Hbefore Howner Hrepo Hrest. unfold extractGithubRepo.
  rewrite (exec_skip_all githubPattern "g" "ithub.com/") by (reflexivity || assumption).
  rewrite (exec_here githubPattern _ (String c owner ++ "/" ++ String d repo)); [reflexivity|].
  unfold match_here, githubPattern; cbn [pre grp].
  rewrite rmatch_Lit_app.
  set (s1 := String c owner ++ "/" ++ String d repo ++ rest).
  rewrite rmatch_Seq. unfold s1 at 1.
  apply (rmatch_Plus_run not_slash c owner); [exact Howner|reflexivity|].
  rewrite rmatch_Seq.
  change ("/" ++ String d repo ++ rest) with ("/" ++ (String d repo ++ rest)).
  rewrite rmatch_Lit_app.
  apply (rmatch_Plus_run not_slash_query_hash d repo rest); [exact Hrepo|exact Hrest|].
  unfold s1. rewrite <- (string_app_assoc (String c owner) "/" _).
  rewrite <- (string_app_assoc _ (String d repo) rest).
  rewrite substring_take. now rewrite string_app_assoc.
Qed.

End ExtractionFacts.

(** ** More on the statistics generator: requests, retries, entries *)

Section RequestFacts.

Import JsString NpmStats.
Local Open Scope Z_scope.

(** X16. A request is repeated at most [MAX_RETRIES] times: whatever the
    registry would answer to a fourth request has no part in the result. *)
Theorem fetchPackageStats_three_requests responses clock :
  fetchPackageStats responses 0 clock = fetchPackageStats (take 3 responses) 0 clock.
Proof.
  destruct responses as [|r1 responses]; [reflexivity|].
  cbn [take]. rewrite !(fetchPackageStats_cons r1).
  destruct r1 as [|s1 b1]; [reflexivity|].
  destruct (s1 =? 404); [reflexivity|].
  destruct ((s1 =? 429) && (0 <? MAX_RETRIES)%nat); [|reflexivity].
  destruct responses as [|r2 responses]; [reflexivity|].
  cbn [take]. rewrite !(fetchPackageStats_cons r2).
  destruct r2 as [|s2 b2]; [reflexivity|].
  destruct (s2 =? 404); [reflexivity|].
  destruct ((s2 =? 429) && (0 + 1 <? MAX_RETRIES)%nat); [|reflexivity].
  destruct responses as [|r3 responses]; [reflexivity|].
  cbn [take]. rewrite !(fetchPackageStats_cons r3).
  destruct r3 as [|s3 b3]; [reflexivity|].
  destruct (s3 =? 404); [reflexivity|].
  change ((0 + 1 + 1 <? MAX_RETRIES)%nat) with false.
  rewrite andb_false_r. reflexivity.
Qed.


Lemma fetchPackageStats_Count responses retryCount clock count :
  fst (fetchPackageStats responses retryCount clock) = Count count <->
  exists (n : nat) status,
    (n <= MAX_RETRIES - retryCount)%nat /\
    responses !! n = Some (Http status (Document (Count count))) /\
    ok status = true /\
    forall m, (m < n)%nat -> exists body, responses !! m = Some (Http 429 body).
Proof.
  revert retryCount clock.
  induction responses as [|r later IH]; intros retryCount clock.
  { split; [discriminate|]. intros (n & s & _ & Hn & _). discriminate Hn. }
  rewrite fetchPackageStats_cons.
  destruct r as [|status body].
  { split; [discriminate|]. intros (n & s & _ & Hn & _ & Hbefore).
    destruct n as [|n]; [discriminate Hn|].
    destruct (Hbefore 0%nat) as [b Hb]; [lia|discriminate Hb]. }
  destruct (status =? 404) eqn:H404.
  { apply Z.eqb_eq in H404 as ->.
    split; [discriminate|]. intros (n & s & _ & Hn & Hok & Hbefore).
    destruct n as [|n]; [injection Hn as <- _; discriminate Hok|].
    destruct (Hbefore 0%nat) as [b Hb]; [lia|discriminate Hb]. }
  destruct ((status =? 429) && (retryCount <? MAX_RETRIES)%nat) eqn:Hretry.
  - apply andb_true_iff in Hretry as [H429 Hlt].
    apply Z.eqb_eq in H429 as ->. apply Nat.ltb_lt in Hlt.
    rewrite IH. split.
    + intros (n & s & Hle & Hn & Hok & Hbefore).
      exists (S n), s. split; [lia|]. split; [exact Hn|]. split; [exact Hok|].
      intros [|m] Hm; [now exists body|]. apply Hbefore. lia.
    + intros (n & s & Hle & Hn & Hok & Hbefore).
      destruct n as [|n]; [injection Hn as <- _; discriminate Hok|].
      exists n, s. split; [lia|]. split; [exact Hn|]. split; [exact Hok|].
      intros m Hm. apply (Hbefore (S m)). lia.
  - assert (Hfirst : forall n,
              (forall m, (m < S n)%nat ->
                 exists b, (Http status body :: later) !! m = Some (Http 429 b)) ->
              (S n <= MAX_RETRIES - retryCount)%nat -> False).
    { intros n Hbefore Hle.
      destruct (Hbefore 0%nat) as [b Hb]; [lia|]. injection Hb as -> _.
      apply andb_false_iff in Hretry as [H|H]; [discriminate H|].
      apply Nat.ltb_ge in H. lia. }
    destruct (negb (ok status)) eqn:Hok.
    + apply negb_true_iff in Hok. split; [discriminate|].
      intros (n & s & Hle & Hn & Hoks & Hbefore).
      destruct n as [|n]; [injection Hn as <- _; congruence|].
      exfalso. exact (Hfirst n Hbefore Hle).
    + apply negb_false_iff in Hok. split.
      * intros Hres. exists 0%nat, status. split; [lia|].
        split; [|split; [exact Hok|intros m Hm; lia]].
        destruct body as [|d]; [discriminate Hres|]. simpl in Hres. now subst d.
      * intros (n & s & Hle & Hn & Hoks & Hbefore).
        destruct n as [|n]; [now injection Hn as _ ->|].
        exfalso. exact (Hfirst n Hbefore Hle).
Qed.

(** X18. A call yields a count exactly when one of the first three answers
    is a success with that count and every answer before it was a rate
    limit (429): no other failure is tried again, and a 404 ends the call
    at once. *)
Theorem fetchPackageStats_succeeds_iff responses clock count :
  fst (fetchPackageStats responses 0 clock) = Count count <->
  exists (n : nat) status,
    (n <= 2)%nat /\
    responses !! n = Some (Http status (Document (Count count))) /\
    ok status = true /\
    forall m, (m < n)%nat -> exists body, responses !! m = Some (Http 429 body).
Proof. apply fetchPackageStats_Count. Qed.

End RequestFacts.

Section RunFacts.

Import JsString NpmStats.
Local Open Scope Z_scope.

Variable FORCE_REFRESH : bool.
Variable Date_parse : string -> option Z.
Variable toISOString : Z -> string.
Variable npmApi : string -> list Response.

Implicit Types (stats existingStats : gmap string StatsValue) (pkg : string).

Local Abbreviation answer now pkg := (fst (fetchPackageStats (npmApi pkg) 0 now)).
Local Abbreviation loop total := (refreshEach toISOString npmApi total).
Local Abbreviation run := (fetchAllStats FORCE_REFRESH Date_parse toISOString npmApi).
Local Abbreviation due := (packagesToRefresh FORCE_REFRESH Date_parse).

(** What [fetchAllStats] resolves to is the [stats] object after the
    loop. *)
Lemma fetchAllStats_Done now (packages : list string) existingStats :
  (forall p, p ∈ due now packages existingStats -> answer now p <> Undefined) ->
  exists stats processed clock,
    run now packages existingStats = Done stats /\
    loop (length (due now packages existingStats)) (due now packages existingStats)
      (existingStats, 0%nat, now) = Done (stats, processed, clock).
Proof.
  intros Hdefined. unfold fetchAllStats.
  destruct (refreshEach_completes toISOString npmApi now
              (length (due now packages existingStats)) (due now packages existingStats)
              (existingStats, 0%nat, now) Hdefined) as [[[stats processed] clock] Hloop].
  exists stats, processed, clock. split; [|exact Hloop].
  destruct (due now packages existingStats) as [|p stale].
  - now injection Hloop as <- _ _.
  - now rewrite Hloop.
Qed.

Lemma refreshEach_dom total (stale : list string) state state' :
  loop total stale state = Done state' ->
  dom (fst (fst state')) = dom (fst (fst state)) ∪ list_to_set stale.
Proof.
  revert state.
  induction stale as [|p stale IH]; intros [[stats processed] clock] Hloop.
  - injection Hloop as <-. simpl. now rewrite union_empty_r_L.
  - rewrite refreshEach_cons in Hloop.
    destruct (refreshOne toISOString npmApi total (stats, processed, clock) p)
      as [state1|msg] eqn:Hstep; [|discriminate].
    apply (refreshOne_Done toISOString npmApi 0) in Hstep
      as (stats1 & clock1 & clock2 & -> & _ & _ & Hcase).
    rewrite (IH _ Hloop). cbn [fst]. rewrite list_to_set_cons.
    destruct Hcase as [(count & _ & ->)|[(_ & _ & ->)|(_ & Hfalsy & ->)]].
    + rewrite dom_insert_L.
      now rewrite (union_comm_L {[p]} (dom stats)), (assoc_L (∪)).
    + rewrite dom_insert_L.
      now rewrite (union_comm_L {[p]} (dom stats)), (assoc_L (∪)).
    + apply falsy_false in Hfalsy as (value & Hvalue & _).
      assert (Hp : p ∈ dom stats) by (apply elem_of_dom; eauto).
      rewrite (assoc_L (∪)). f_equal.
      apply set_eq. intros x. rewrite elem_of_union, elem_of_singleton.
      split; [tauto|]. intros [H| ->]; assumption.
Qed.

(** X19. The statistics only grow: when no answer stops the run, the result
    has a value for every name of the existing file, also for packages that
    no mapping mentions any more, and for every package that was due; it has
    no other name. *)
Theorem fetchAllStats_entries now (packages : list string) existingStats :
  (forall p, p ∈ due now packages existingStats -> answer now p <> Undefined) ->
  exists stats,
    run now packages existingStats = Done stats /\
    dom stats = dom existingStats ∪ list_to_set (due now packages existingStats).
Proof.
  intros Hdefined.
  destruct (fetchAllStats_Done now packages existingStats Hdefined)
    as (stats & processed & clock & Hrun & Hloop).
  exists stats. split; [exact Hrun|].
  exact (refreshEach_dom _ _ _ _ Hloop).
Qed.

(** X20. When no answer stops the run, a package that was due and whose
    request gave a count, or failed while the package had no truthy value,
    has in the result the record of this run: the count of the request,
    [null] when it failed, and a timestamp not before the start. *)
Theorem fetchAllStats_writes_entry now (packages : list string) existingStats pkg :
  (forall p, p ∈ due now packages existingStats -> answer now p <> Undefined) ->
  pkg ∈ due now packages existingStats ->
  (exists count, answer now pkg = Count count) \/
  (answer now pkg = Null /\ falsy (existingStats !! pkg) = true) ->
  exists stats t,
    run now packages existingStats = Done stats /\
    now <= t /\
    stats !! pkg =
    Some (Entry {| downloads := match answer now pkg with
                                | Count count => Some count
                                | _ => None
                                end;
                   lastModified := Some (toISOString t) |}).
Proof.
  intros Hdefined Hdue Hcase.
  destruct (fetchAllStats_Done now packages existingStats Hdefined)
    as (stats & processed & clock & Hrun & Hloop).
  destruct (refreshEach_stamped toISOString npmApi now _ _ _ _ pkg Hloop)
    as (t & Ht & Hlook); [reflexivity|right; now split|].
  now exists stats, t.
Qed.

(** X21. Such a package is not due again for a week, with or without a
    count: a first failure is recorded and waits like a success.  Dates
    are read back as they were written. *)
Theorem refreshed_package_rests_a_week now later (packages : list string)
    existingStats pkg :
  (forall t, Date_parse (toISOString t) = Some t) ->
  (forall t, toISOString t <> "") ->
  (forall p, p ∈ due now packages existingStats -> answer now p <> Undefined) ->
  pkg ∈ due now packages existingStats ->
  (exists count, answer now pkg = Count count) \/
  (answer now pkg = Null /\ falsy (existingStats !! pkg) = true) ->
  later <= now + ONE_WEEK_MS ->
  exists stats,
    run now packages existingStats = Done stats /\
    needsRefresh false Date_parse later pkg stats = false.
Proof.
  intros Hparse Hstamp Hdefined Hdue Hcase Hlater.
  destruct (fetchAllStats_Done now packages existingStats Hdefined)
    as (stats & processed & clock & Hrun & Hloop).
  destruct (refreshEach_stamped toISOString npmApi now _ _ _ _ pkg Hloop)
    as (t & Ht & Hlook); [reflexivity|right; now split|].
  exists stats. split; [exact Hrun|].
  cbn [fst] in Hlook.
  unfold needsRefresh. rewrite Hlook. cbn [falsy truthy_value negb lastModifiedOf
    lastModified if_truthy].
  unfold truthy_string.
  destruct (String.eqb_spec (toISOString t) "") as [Hempty|_];
    [now apply Hstamp in Hempty|].
  cbn [negb]. rewrite Hparse, Z.gtb_ltb. apply Z.ltb_ge. lia.
Qed.

(** What the loop keeps true of [stats]: no name of the existing file is
    lost, a bare count is one of the file, and a record without a count
    either was in the file as it is or belongs to a package for which the
    file had nothing truthy. *)
Local Abbreviation tracks existingStats stats :=
  ((forall p count, stats !! p = Some (Legacy count) ->
      existingStats !! p = Some (Legacy count)) /\
   (forall p entry, stats !! p = Some (Entry entry) -> downloads entry = None ->
      existingStats !! p = Some (Entry entry) \/ falsy (existingStats !! p) = true)).

Lemma falsy_tracked existingStats stats p :
  tracks existingStats stats ->
  (forall q, stats !! q = None -> existingStats !! q = None) ->
  falsy (stats !! p) = true -> falsy (existingStats !! p) = true.
Proof.
  intros [Hcount _] Hkeep Hfalsy.
  apply falsy_true in Hfalsy as [H|H]; apply falsy_true.
  - left. now apply Hkeep.
  - right. now apply Hcount.
Qed.

Lemma refreshEach_tracks existingStats total (stale : list string) state state' :
  loop total stale state = Done state' ->
  (forall q, fst (fst state) !! q = None -> existingStats !! q = None) ->
  tracks existingStats (fst (fst state)) ->
  tracks existingStats (fst (fst state')).
Proof.
  revert state.
  induction stale as [|p stale IH]; intros [[stats processed] clock] Hloop Hkeep Hinv.
  - now injection Hloop as <-.
  - rewrite refreshEach_cons in Hloop.
    destruct (refreshOne toISOString npmApi total (stats, processed, clock) p)
      as [state1|msg] eqn:Hstep; [|discriminate].
    apply (refreshOne_Done toISOString npmApi 0) in Hstep
      as (stats1 & clock1 & clock2 & -> & _ & _ & Hcase).
    cbn [fst] in *.
    assert (Hnext : (forall q, stats1 !! q = None -> existingStats !! q = None) /\
                    tracks existingStats stats1).
    { destruct Hcase as [(count & _ & ->)|[(_ & Hfalsy & ->)|(_ & _ & ->)]].
      - destruct Hinv as [Hcount Hrecord]. split; [|split].
        + intros q Hq. apply lookup_insert_None in Hq as [Hq _]. now apply Hkeep.
        + intros q n Hq. apply lookup_insert_Some in Hq as [[_ Heq]|[_ Hq]];
            [discriminate Heq|now apply Hcount].
        + intros q e Hq He. apply lookup_insert_Some in Hq as [[_ [= <-]]|[_ Hq]].
          * discriminate He.
          * now apply Hrecord.
      - pose proof (falsy_tracked existingStats stats p Hinv Hkeep Hfalsy) as Hp.
        destruct Hinv as [Hcount Hrecord]. split; [|split].
        + intros q Hq. apply lookup_insert_None in Hq as [Hq _]. now apply Hkeep.
        + intros q n Hq. apply lookup_insert_Some in Hq as [[_ Heq]|[_ Hq]];
            [discriminate Heq|now apply Hcount].
        + intros q e Hq He. apply lookup_insert_Some in Hq as [[<- _]|[_ Hq]].
          * now right.
          * now apply Hrecord.
      - now split. }
    destruct Hnext as [Hkeep1 Hinv1].
    now apply (IH _ Hloop).
Qed.

(** X27. When the request for a package fails and the existing statistics
    have a truthy value for it, a record or a count other than 0, the result
    of a run that no answer stops holds that value as it was; and a record
    without a count in the result was either in the existing statistics
    already or belongs to a package for which they had nothing or the
    count 0. *)
Theorem failed_fetch_keeps_truthy_value now (packages : list string) existingStats
    pkg value :
  (forall p, p ∈ due now packages existingStats -> answer now p <> Undefined) ->
  existingStats !! pkg = Some value ->
  truthy_value value = true ->
  answer now pkg = Null ->
  exists stats,
    run now packages existingStats = Done stats /\
    stats !! pkg = Some value /\
    (forall p entry,
       stats !! p = Some (Entry entry) ->
       downloads entry = None ->
       existingStats !! p = Some (Entry entry) \/
       existingStats !! p = None \/
       existingStats !! p = Some (Legacy 0)).
Proof.
  intros Hdefined Hvalue Htruthy Hnull.
  destruct (fetchAllStats_Done now packages existingStats Hdefined)
    as (stats & processed & clock & Hrun & Hloop).
  exists stats. split; [exact Hrun|]. split.
  - exact (refreshEach_keeps toISOString npmApi now _ _ _ _ pkg value
             Hloop Hnull Hvalue Htruthy).
  - intros p entry Hp Hcount.
    destruct (refreshEach_tracks existingStats _ _ _ _ Hloop) as [_ Hrecord].
    + trivial.
    + split; [trivial|]. intros q e Hq _. now left.
    + destruct (Hrecord p entry Hp Hcount) as [H|H]; [now left|right].
      now apply falsy_true.
Qed.

(** Either an answer without a count is among those of the packages, or
    none is. *)
Lemma undefined_answer_dec now (stale : list string) :
  (exists p, p ∈ stale /\ answer now p = Undefined) \/
  (forall p, p ∈ stale -> answer now p <> Undefined).
Proof.
  induction stale as [|p stale [(q & Hq & Hundefined)|IH]].
  - right. intros p Hp. now apply elem_of_nil in Hp.
  - left. exists q. split; [now right|exact Hundefined].
  - destruct (answer now p) as [| |count] eqn:Hp.
    + left. exists p. split; [now left|exact Hp].
    + right. intros q Hq. apply elem_of_cons in Hq as [->|Hq]; [congruence|now apply IH].
    + right. intros q Hq. apply elem_of_cons in Hq as [->|Hq]; [congruence|now apply IH].
Qed.

(** X28. The run is lost exactly when the registry answers the request of a
    due package with a success whose document has no [downloads]: the value
    is [undefined], not [null], and [downloads.toLocaleString()] throws.
    Then [fetchAllStats] rejects and no statistics are written, neither the
    counts fetched so far nor the existing ones. *)
Theorem fetchAllStats_throws_iff now (packages : list string) existingStats :
  (exists msg, run now packages existingStats = Fatal msg) <->
  (exists p, p ∈ due now packages existingStats /\ answer now p = Undefined).
Proof.
  split.
  - intros [msg Hrun].
    destruct (undefined_answer_dec now (due now packages existingStats))
      as [Hsome|Hnone]; [exact Hsome|].
    destruct (fetchAllStats_Done now packages existingStats Hnone)
      as (stats & _ & _ & Hdone & _).
    congruence.
  - intros (p & Hp & Hundefined). unfold fetchAllStats.
    destruct (refreshEach_throws toISOString npmApi now
                (length (due now packages existingStats))
                (due now packages existingStats) (existingStats, 0%nat, now) p
                Hp Hundefined) as [msg Hloop].
    destruct (due now packages existingStats) as [|q stale].
    + now apply elem_of_nil in Hp.
    + rewrite Hloop. now exists msg.
Qed.

End RunFacts.

(** ** The packages to ask the registry about *)

Section PackageList.

Import JsString StatsInput.

Lemma setAdd_elem name packages x :
  x ∈ setAdd name packages <-> x = name \/ x ∈ packages.
Proof.
  unfold setAdd. destruct (decide (name ∈ packages)) as [Hin|Hin].
  - split; [now right|]. intros [->|H]; assumption.
  - rewrite elem_of_app, list_elem_of_singleton. tauto.
Qed.

Lemma setAdd_NoDup name packages : NoDup packages -> NoDup (setAdd name packages).
Proof.
  intros Hnd. unfold setAdd. destruct (decide (name ∈ packages)) as [Hin|Hin];
    [exact Hnd|].
  apply NoDup_app. split; [exact Hnd|]. split; [|apply NoDup_singleton].
  intros x Hx Hx'. apply list_elem_of_singleton in Hx' as ->. contradiction.
Qed.

Lemma addPackages_NoDup packages feature :
  NoDup packages -> NoDup (addPackages packages feature).
Proof.
  unfold addPackages. revert packages.
  induction (Feature.fallbacks feature) as [|f fs IH]; intros packages Hnd; [exact Hnd|].
  cbn [fold_left]. apply IH.
  destruct (if_truthy (Fallback.npm f)); [now apply setAdd_NoDup|exact Hnd].
Qed.

Lemma addPackages_elem packages feature x :
  x ∈ addPackages packages feature <->
  x ∈ packages \/
  exists fallback, fallback ∈ Feature.fallbacks feature /\
    if_truthy (Fallback.npm fallback) = Some x.
Proof.
  unfold addPackages. revert packages.
  induction (Feature.fallbacks feature) as [|f fs IH]; intros packages.
  - simpl. split; [now left|]. intros [H|(fb & Hfb & _)]; [exact H|].
    now apply elem_of_nil in Hfb.
  - cbn [fold_left]. rewrite IH. clear IH.
    assert (Hhead : x ∈ match if_truthy (Fallback.npm f) with
                        | Some name => setAdd name packages
                        | None => packages
                        end <->
                    x ∈ packages \/ if_truthy (Fallback.npm f) = Some x).
    { destruct (if_truthy (Fallback.npm f)) as [name|].
      - rewrite setAdd_elem. split.
        + intros [->|H]; [now right|now left].
        + intros [H|[= ->]]; [now right|now left].
      - split; [now left|]. intros [H|H]; [exact H|discriminate H]. }
    rewrite Hhead. split.
    + intros [[H|H]|(fb & Hfb & Hnpm)].
      * now left.
      * right. exists f. split; [left|exact H].
      * right. exists fb. split; [now right|exact Hnpm].
    + intros [H|(fb & Hfb & Hnpm)]; [now left; left|].
      apply elem_of_cons in Hfb as [->|Hfb]; [now left; right|].
      right. now exists fb.
Qed.

Lemma collected_NoDup (featureList : list Feature.t) packages :
  NoDup packages -> NoDup (fold_left addPackages featureList packages).
Proof.
  revert packages. induction featureList as [|ft fts IH]; intros packages Hnd;
    [exact Hnd|].
  cbn [fold_left]. now apply IH, addPackages_NoDup.
Qed.

Lemma collected_elem (featureList : list Feature.t) packages x :
  x ∈ fold_left addPackages featureList packages <->
  x ∈ packages \/
  exists feature fallback,
    feature ∈ featureList /\ fallback ∈ Feature.fallbacks feature /\
    if_truthy (Fallback.npm fallback) = Some x.
Proof.
  revert packages. induction featureList as [|ft fts IH]; intros packages.
  - simpl. split; [now left|]. intros [H|(ft & fb & Hft & _)]; [exact H|].
    now apply elem_of_nil in Hft.
  - cbn [fold_left]. rewrite IH, addPackages_elem. split.
    + intros [[H|(fb & Hfb & Hnpm)]|(ft' & fb & Hft & Hfb & Hnpm)].
      * now left.
      * right. exists ft, fb. split; [left|now split].
      * right. exists ft', fb. split; [now right|now split].
    + intros [H|(ft' & fb & Hft & Hfb & Hnpm)]; [now left; left|].
      apply elem_of_cons in Hft as [->|Hft].
      * left; right. now exists fb.
      * right. now exists ft', fb.
Qed.

(** X22. The packages that are asked about: every non-empty [npm] name of
    a fallback of the mappings, each once, in ascending order. *)
Theorem extractNpmPackages_sorted_set (polyfillMappings : list (string * Feature.t)) :
  Sorted String.le (extractNpmPackages polyfillMappings) /\
  NoDup (extractNpmPackages polyfillMappings) /\
  forall name,
    name ∈ extractNpmPackages polyfillMappings <->
    name <> "" /\
    exists featureId feature fallback,
      (featureId, feature) ∈ polyfillMappings /\
      fallback ∈ Feature.fallbacks feature /\
      Fallback.npm fallback = Some name.
Proof.
  unfold extractNpmPackages. split; [apply Sorted_merge_sort; apply _|]. split.
  - rewrite merge_sort_Permutation. apply collected_NoDup, NoDup_nil_2.
  - intros name. rewrite merge_sort_Permutation, collected_elem.
    unfold JsObject.values. split.
    + intros [H|(ft & fb & Hft & Hfb & Hnpm)]; [now apply elem_of_nil in H|].
      apply list_elem_of_fmap in Hft as ([k ft'] & -> & Hkv).
      destruct (Fallback.npm fb) as [n|] eqn:Hn; [|discriminate Hnpm].
      simpl in Hnpm. unfold truthy_string in Hnpm.
      destruct (String.eqb_spec n "") as [->|Hne]; [discriminate Hnpm|].
      injection Hnpm as ->. split; [exact Hne|].
      now exists k, ft', fb.
    + intros (Hne & k & ft & fb & Hkv & Hfb & Hnpm). right.
      exists ft, fb. split; [|split; [exact Hfb|]].
      * apply list_elem_of_fmap. now exists (k, ft).
      * rewrite Hnpm. simpl. unfold truthy_string.
        now destruct (String.eqb_spec name "").
Qed.

End PackageList.

(** ** Escaping for the explorer page *)

Section EscapeFacts.

Import JsString Explorer.

(** What one character becomes. *)
Local Abbreviation entity c :=
  (if Ascii.eqb c "&" then "&amp;"
   else if Ascii.eqb c "<" then "&lt;"
   else if Ascii.eqb c ">" then "&gt;"
   else if Ascii.eqb c "034" then "&quot;"
   else if Ascii.eqb c "'" then "&#039;"
   else String c "").

Lemma escapeHtml_nil : escapeHtml (Some "") = "".
Proof. reflexivity. Qed.

(** The five replacements in a row work character by character. *)
Lemma escapeHtml_cons c s :
  escapeHtml (Some (String c s)) = entity c ++ escapeHtml (Some s).
Proof.
  assert (Hcons : forall t,
            replaceAll "'" "&#039;"
              (replaceAll dquote "&quot;"
                 (replaceAll ">" "&gt;"
                    (replaceAll "<" "&lt;"
                       (replaceAll "&" "&amp;" t)))) = escapeHtml (Some t)).
  { intros [|a t]; reflexivity. }
  change (escapeHtml (Some (String c s))) with
    (replaceAll "'" "&#039;"
       (replaceAll dquote "&quot;"
          (replaceAll ">" "&gt;"
             (replaceAll "<" "&lt;"
                (replaceAll "&" "&amp;" (String c s)))))).
  rewrite <- (Hcons s). unfold dquote.
  rewrite (replaceAll_char_cons "&"), (Ascii.eqb_sym c "&").
  destruct (Ascii.eqb "&" c) eqn:Hamp.
  { now rewrite !replaceAll_char_app. }
  rewrite (replaceAll_char_cons "<"), (Ascii.eqb_sym c "<").
  destruct (Ascii.eqb "<" c) eqn:Hlt.
  { now rewrite !replaceAll_char_app. }
  rewrite (replaceAll_char_cons ">"), (Ascii.eqb_sym c ">").
  destruct (Ascii.eqb ">" c) eqn:Hgt.
  { now rewrite !replaceAll_char_app. }
  rewrite (replaceAll_char_cons "034"), (Ascii.eqb_sym c "034").
  destruct (Ascii.eqb "034" c) eqn:Hq.
  { now rewrite !replaceAll_char_app. }
  rewrite (replaceAll_char_cons "'"), (Ascii.eqb_sym c "'").
  destruct (Ascii.eqb "'" c) eqn:Hap; reflexivity.
Qed.

(** X23. Escaped text holds none of [<], [>], the double quote and the
    single quote, whatever the text was. *)
Theorem escapeHtml_no_markup (text : option string) (c : ascii) :
  In c (list_ascii_of_string (escapeHtml text)) ->
  c <> "<"%char /\ c <> ">"%char /\ c <> "034"%char /\ c <> "'"%char.
Proof.
  destruct text as [s|]; [|intros []].
  induction s as [|a s IH]; [intros []|].
  rewrite escapeHtml_cons.
  assert (Happ : forall x y, list_ascii_of_string (x ++ y) =
                   (list_ascii_of_string x ++ list_ascii_of_string y)%list).
  { induction x as [|b x IHx]; intros y; [reflexivity|].
    rewrite string_app_cons. simpl. now rewrite IHx. }
  rewrite Happ, in_app_iff. intros [Hhead|Htail]; [|now apply IH].
  clear IH Happ.
  destruct (Ascii.eqb a "&"); [simpl in Hhead; intuition (subst; discriminate)|].
  destruct (Ascii.eqb a "<") eqn:Hlt; [simpl in Hhead; intuition (subst; discriminate)|].
  destruct (Ascii.eqb a ">") eqn:Hgt; [simpl in Hhead; intuition (subst; discriminate)|].
  destruct (Ascii.eqb a "034") eqn:Hq; [simpl in Hhead; intuition (subst; discriminate)|].
  destruct (Ascii.eqb a "'") eqn:Hap; [simpl in Hhead; intuition (subst; discriminate)|].
  simpl in Hhead. destruct Hhead as [<-|[]].
  apply Ascii.eqb_neq in Hlt, Hgt, Hq, Hap. auto.
Qed.

(** No escape is the start of another one. *)
Lemma entity_prefix_free c d (x y : string) :
  entity c ++ x = entity d ++ y -> c = d /\ x = y.
Proof.
  destruct (Ascii.eqb_spec c "&") as [->|Hc1];
    [destruct (Ascii.eqb_spec d "&") as [->|Hd1]|].
  - intros H. now apply string_app_cancel in H.
  - destruct (Ascii.eqb d "<"); [discriminate|].
    destruct (Ascii.eqb d ">"); [discriminate|].
    destruct (Ascii.eqb d "034"); [discriminate|].
    destruct (Ascii.eqb d "'"); [discriminate|].
    intros [= H _]. congruence.
  - destruct (Ascii.eqb_spec c "<") as [->|Hc2].
    { destruct (Ascii.eqb_spec d "&") as [->|Hd1]; [discriminate|].
      destruct (Ascii.eqb_spec d "<") as [->|Hd2];
        [intros H; now apply string_app_cancel in H|].
      destruct (Ascii.eqb d ">"); [discriminate|].
      destruct (Ascii.eqb d "034"); [discriminate|].
      destruct (Ascii.eqb d "'"); [discriminate|].
      intros [= H _]. congruence. }
    destruct (Ascii.eqb_spec c ">") as [->|Hc3].
    { destruct (Ascii.eqb_spec d "&") as [->|Hd1]; [discriminate|].
      destruct (Ascii.eqb_spec d "<") as [->|Hd2]; [discriminate|].
      destruct (Ascii.eqb_spec d ">") as [->|Hd3];
        [intros H; now apply string_app_cancel in H|].
      destruct (Ascii.eqb d "034"); [discriminate|].
      destruct (Ascii.eqb d "'"); [discriminate|].
      intros [= H _]. congruence. }
    destruct (Ascii.eqb_spec c "034") as [->|Hc4].
    { destruct (Ascii.eqb_spec d "&") as [->|Hd1]; [discriminate|].
      destruct (Ascii.eqb_spec d "<") as [->|Hd2]; [discriminate|].
      destruct (Ascii.eqb_spec d ">") as [->|Hd3]; [discriminate|].
      destruct (Ascii.eqb_spec d "034") as [->|Hd4];
        [intros H; now apply string_app_cancel in H|].
      destruct (Ascii.eqb d "'"); [discriminate|].
      intros [= H _]. congruence. }
    destruct (Ascii.eqb_spec c "'") as [->|Hc5].
    { destruct (Ascii.eqb_spec d "&") as [->|Hd1]; [discriminate|].
      destruct (Ascii.eqb_spec d "<") as [->|Hd2]; [discriminate|].
      destruct (Ascii.eqb_spec d ">") as [->|Hd3]; [discriminate|].
      destruct (Ascii.eqb_spec d "034") as [->|Hd4]; [discriminate|].
      destruct (Ascii.eqb_spec d "'") as [->|Hd5];
        [intros H; now apply string_app_cancel in H|].
      intros [= H _]. congruence. }
    destruct (Ascii.eqb_spec d "&") as [->|Hd1]; [intros [= H _]; congruence|].
    destruct (Ascii.eqb_spec d "<") as [->|Hd2]; [intros [= H _]; congruence|].
    destruct (Ascii.eqb_spec d ">") as [->|Hd3]; [intros [= H _]; congruence|].
    destruct (Ascii.eqb_spec d "034") as [->|Hd4]; [intros [= H _]; congruence|].
    destruct (Ascii.eqb_spec d "'") as [->|Hd5]; [intros [= H _]; congruence|].
    intros [= -> H]. split; [reflexivity|exact H].
Qed.

Lemma entity_nonempty c (x : string) : entity c ++ x <> "".
Proof.
  destruct (Ascii.eqb c "&"); [discriminate|].
  destruct (Ascii.eqb c "<"); [discriminate|].
  destruct (Ascii.eqb c ">"); [discriminate|].
  destruct (Ascii.eqb c "034"); [discriminate|].
  destruct (Ascii.eqb c "'"); discriminate.
Qed.

Lemma escapeHtml_inj (a b : string) :
  escapeHtml (Some a) = escapeHtml (Some b) -> a = b.
Proof.
  revert b. induction a as [|c a IH]; intros [|d b].
  - reflexivity.
  - rewrite escapeHtml_cons. intros H. symmetry in H. now apply entity_nonempty in H.
  - rewrite escapeHtml_cons. intros H. now apply entity_nonempty in H.
  - rewrite !escapeHtml_cons. intros H.
    apply entity_prefix_free in H as [-> H]. f_equal. now apply IH.
Qed.

(** X24. Two different texts never escape to the same text: what the page
    shows tells, for one, a [<] from a written-out [&lt;]. *)
Theorem escapeHtml_distinguishes (a b : string) :
  a <> b -> escapeHtml (Some a) <> escapeHtml (Some b).
Proof. intros Hne Heq. now apply Hne, escapeHtml_inj. Qed.

End EscapeFacts.

(** ** The slug of a feature from the compatibility data *)

Section CompatFacts.

Import JsString Regex CompatData.

Lemma stripDocsPrefix_en_US slug :
  stripDocsPrefix ("https://developer.mozilla.org/en-US/docs/" ++ slug) = slug.
Proof.
  unfold stripDocsPrefix, docsPrefix.
  change ("https://developer.mozilla.org/en-US/docs/" ++ slug)
    with ("https://developer.mozilla.org/" ++ "en-US/" ++ "docs/" ++ slug).
  rewrite rmatch_Seq, rmatch_Lit_app, rmatch_Seq, rmatch_Opt.
  now rewrite rmatch_Lit_app, rmatch_Lit_app.
Qed.

Lemma stripDocsPrefix_plain slug :
  stripDocsPrefix ("https://developer.mozilla.org/docs/" ++ slug) = slug.
Proof.
  unfold stripDocsPrefix, docsPrefix.
  change ("https://developer.mozilla.org/docs/" ++ slug)
    with ("https://developer.mozilla.org/" ++ "docs/" ++ slug).
  rewrite rmatch_Seq, rmatch_Lit_app, rmatch_Seq, rmatch_Opt.
  change ("docs/" ++ slug) with (String "d" ("ocs/" ++ slug)).
  rewrite (rmatch_Lit_other "e" "n-US/" "d") by reflexivity.
  change (String "d" ("ocs/" ++ slug)) with ("docs/" ++ slug).
  now rewrite rmatch_Lit_app.
Qed.

Lemma rmatch_Lit_None {A : Type} l s (k : string -> option A) :
  String.prefix l s = false -> rmatch (Lit l) s k = None.
Proof. intros H. cbn [rmatch]. now rewrite H. Qed.

Lemma prefix_app_iff (a b s : string) :
  String.prefix (a ++ b) s = true <->
  exists r, s = a ++ r /\ String.prefix b r = true.
Proof.
  revert s. induction a as [|c a IH]; intros s.
  - change ("" ++ b) with b. split; [intros H; now exists s|].
    now intros (r & -> & H).
  - rewrite string_app_cons. destruct s as [|d s].
    + split; [discriminate|]. intros (r & H & _). discriminate H.
    + rewrite prefix_cons, andb_true_iff, IH, Ascii.eqb_eq. split.
      * intros [-> (r & -> & H)]. now exists r.
      * intros (r & H & Hp). rewrite string_app_cons in H. injection H as -> ->.
        split; [reflexivity|]. now exists r.
Qed.

Lemma stripDocsPrefix_other url :
  String.prefix "https://developer.mozilla.org/en-US/docs/" url = false ->
  String.prefix "https://developer.mozilla.org/docs/" url = false ->
  stripDocsPrefix url = url.
Proof.
  intros Hen Hplain. unfold stripDocsPrefix, docsPrefix.
  destruct (rmatch _ url _) as [rest|] eqn:Hmatch; [exfalso|reflexivity].
  rewrite rmatch_Seq in Hmatch.
  apply rmatch_Lit_Some in Hmatch as (r & -> & Hmatch).
  rewrite rmatch_Seq, rmatch_Opt in Hmatch.
  destruct (rmatch (Lit "en-US/") r _) as [x|] eqn:Hopt.
  - apply rmatch_Lit_Some in Hopt as (r' & -> & Hdocs).
    apply rmatch_Lit_Some in Hdocs as (r'' & -> & _).
    change ("https://developer.mozilla.org/" ++ "en-US/" ++ "docs/" ++ r'')
      with ("https://developer.mozilla.org/en-US/docs/" ++ r'') in Hen.
    now rewrite prefix_app in Hen.
  - apply rmatch_Lit_Some in Hmatch as (r'' & -> & _).
    change ("https://developer.mozilla.org/" ++ "docs/" ++ r'')
      with ("https://developer.mozilla.org/docs/" ++ r'') in Hplain.
    now rewrite prefix_app in Hplain.
Qed.

(** X25. The documentation url of a feature gives the same slug in both
    forms it is written in, with and without the [en-US] locale. *)
Theorem getMDNSlug_both_url_forms features bcd featureId bcdKey more data slug :
  JsObject.get featureId features
    = Some {| compat_features := Some (bcdKey :: more) |} ->
  bcdKey <> "" ->
  walk (split "." bcdKey) bcd = Some data ->
  compat data = Some {| mdn_url := Some ("https://developer.mozilla.org/en-US/docs/" ++ slug) |} \/
  compat data = Some {| mdn_url := Some ("https://developer.mozilla.org/docs/" ++ slug) |} ->
  getMDNSlug features bcd featureId = Some slug.
Proof.
  intros Hfeature Hkey Hwalk Hurl. unfold getMDNSlug.
  rewrite Hfeature. cbn [compat_features]. unfold truthy_string.
  destruct (String.eqb_spec bcdKey "") as [|_]; [contradiction|]. cbn [negb].
  rewrite Hwalk.
  destruct Hurl as [-> | ->]; cbn [mdn_url if_truthy].
  - change (truthy_string ("https://developer.mozilla.org/en-US/docs/" ++ slug)) with true.
    cbv iota. now rewrite stripDocsPrefix_en_US.
  - change (truthy_string ("https://developer.mozilla.org/docs/" ++ slug)) with true.
    cbv iota. now rewrite stripDocsPrefix_plain.
Qed.

(** X26. A documentation url in another form, another locale or another
    site, is not cut: the whole url is returned as the slug. *)
Theorem getMDNSlug_other_url_kept features bcd featureId bcdKey more data url :
  JsObject.get featureId features
    = Some {| compat_features := Some (bcdKey :: more) |} ->
  bcdKey <> "" ->
  walk (split "." bcdKey) bcd = Some data ->
  compat data = Some {| mdn_url := Some url |} ->
  url <> "" ->
  String.prefix "https://developer.mozilla.org/en-US/docs/" url = false ->
  String.prefix "https://developer.mozilla.org/docs/" url = false ->
  getMDNSlug features bcd featureId = Some url.
Proof.
  intros Hfeature Hkey Hwalk Hcompat Hurl Hen Hplain. unfold getMDNSlug.
  rewrite Hfeature. cbn [compat_features]. unfold truthy_string.
  destruct (String.eqb_spec bcdKey "") as [|_]; [contradiction|]. cbn [negb].
  rewrite Hwalk, Hcompat. cbn [mdn_url if_truthy]. unfold truthy_string.
  destruct (String.eqb_spec url "") as [|_]; [contradiction|]. cbn [negb].
  now rewrite stripDocsPrefix_other.
Qed.

End CompatFacts.

(** ** More runs on the sample inputs *)

Section MoreSampleRuns.

Import JsObject PolyfillMappings NpmStats.

(** Closes a decidable goal over concrete data by evaluation. *)
Ltac by_evaluation := refine (bool_decide_unpack _ _); vm_compute; exact I.

(** The override of the sample file adds a feature and leaves the
    discovered one alone. *)
Lemma feature_without_override_unchanged_sample :
  get "intersection-observer"
    (mergeOverrides Samples.discovered (loadOverrides Samples.addsFeature))
  = get "intersection-observer" Samples.discovered.
Proof.
  apply (feature_without_override_unchanged Samples.discovered Samples.addsFeature
           "intersection-observer").
  by_evaluation.
Defined.

(** [replace: true] alone does not clear the discovered fallbacks. *)
Lemma override_without_fallbacks_is_noop_sample :
  get "intersection-observer"
    (mergeOverrides Samples.discovered
       (loadOverrides (Parsed [("intersection-observer", Samples.replaceWithoutList)])))
  = get "intersection-observer" Samples.discovered.
Proof.
  apply (override_without_fallbacks_is_noop Samples.discovered
           (Parsed [("intersection-observer", Samples.replaceWithoutList)])
           "intersection-observer" Samples.replaceWithoutList); reflexivity.
Defined.

(** The discovered feature is written as discovered when the overrides name
    another feature. *)
Lemma written_record_without_override_sample :
  exists final,
    main Samples.catalog Samples.getMDNSlug Samples.seeAlsoPolyfills
      (Some Samples.mdnDocsMapping) true Samples.addsFeature = Done final /\
    get "intersection-observer" final =
      if decide ("intersection-observer" ∈ Samples.catalog) then
        match flat_map (findPolyfills Samples.seeAlsoPolyfills)
                (slugsOf Samples.getMDNSlug Samples.mdnDocsMapping
                   "intersection-observer") with
        | [] => None
        | links => Some {| Feature.fallbacks := map toFallback (uniqueLinks links) |}
        end
      else None.
Proof.
  apply (written_record_without_override Samples.catalog Samples.getMDNSlug
           Samples.seeAlsoPolyfills Samples.mdnDocsMapping Samples.addsFeature
           "intersection-observer").
  by_evaluation.
Defined.

Lemma discovered_record_shape_sample :
  "intersection-observer" ∈ Samples.catalog /\
  [Samples.npmFallback; Samples.githubFallback] <> [] /\
  forall fallback, fallback ∈ [Samples.npmFallback; Samples.githubFallback] ->
    Fallback.type fallback = "polyfill" /\
    exists slug link,
      slug ∈ slugsOf Samples.getMDNSlug Samples.mdnDocsMapping "intersection-observer" /\
      link ∈ findPolyfills Samples.seeAlsoPolyfills slug /\
      Fallback.url fallback = Link.url link.
Proof.
  apply (discovered_record_shape Samples.catalog Samples.getMDNSlug
           Samples.seeAlsoPolyfills Samples.mdnDocsMapping "intersection-observer"
           {| Feature.fallbacks := [Samples.npmFallback; Samples.githubFallback] |}).
  vm_compute. reflexivity.
Defined.

(** The sample feature is read from the remote mapping, whatever the
    compatibility data says. *)
Lemma remote_mapping_takes_priority_sample :
  get "intersection-observer"
    (generateMappings Samples.catalog Samples.getMDNSlug Samples.seeAlsoPolyfills
       Samples.mdnDocsMapping) =
  get "intersection-observer"
    (generateMappings Samples.catalog (fun _ => Some "Web/API/Other")
       Samples.seeAlsoPolyfills Samples.mdnDocsMapping) /\
  (["Web/API/Intersection_Observer_API"; "Web/API/IntersectionObserver"] = [] ->
   get "intersection-observer"
     (generateMappings Samples.catalog Samples.getMDNSlug Samples.seeAlsoPolyfills
        Samples.mdnDocsMapping) = None).
Proof.
  apply (remote_mapping_takes_priority Samples.catalog Samples.getMDNSlug
           (fun _ => Some "Web/API/Other") Samples.seeAlsoPolyfills
           Samples.mdnDocsMapping "intersection-observer"
           ["Web/API/Intersection_Observer_API"; "Web/API/IntersectionObserver"]).
  reflexivity.
Defined.

(** Augmenting the discovered feature keeps the file sorted. *)
Lemma main_sorted_without_added_features_sample :
  exists final,
    main Samples.catalog Samples.getMDNSlug Samples.seeAlsoPolyfills
      (Some Samples.mdnDocsMapping) true Samples.rewritesFeature = Done final /\
    StronglySorted String.le (keys final).
Proof.
  apply (main_sorted_without_added_features Samples.catalog Samples.getMDNSlug
           Samples.seeAlsoPolyfills Samples.mdnDocsMapping Samples.rewritesFeature).
  intros k Hk. vm_compute in Hk. apply list_elem_of_singleton in Hk as ->.
  by_evaluation.
Defined.

Lemma extractNpmPackage_scoped_sample :
  extractNpmPackage
    ("https://www." ++ "npmjs.com/package/" ++ "@" ++ "js-temporal" ++ "/" ++
     "polyfill" ++ "?activeTab=readme")
  = Some ("@" ++ "js-temporal" ++ "/" ++ "polyfill").
Proof.
  apply (extractNpmPackage_scoped "https://www." "j" "s-temporal" "p" "olyfill"
           "?activeTab=readme"); [by_evaluation|by_evaluation|by_evaluation|reflexivity].
Defined.

Lemma extractNpmPackage_plain_sample :
  extractNpmPackage
    ("https://www." ++ "npmjs.com/package/" ++ "intersection-observer" ++ "/")
  = Some "intersection-observer".
Proof.
  apply (extractNpmPackage_plain "https://www." "i" "ntersection-observer" "/");
    [by_evaluation|by_evaluation|reflexivity|].
  intros rest' [= H]. change ("" = rest') in H. subst rest'. exact I.
Defined.

Lemma extractGithubRepo_owner_repo_sample :
  extractGithubRepo
    ("https://" ++ "github.com/" ++ "GoogleChromeLabs" ++ "/" ++
     "intersection-observer.git" ++ "")
  = Some (dropGitSuffix ("GoogleChromeLabs" ++ "/" ++ "intersection-observer.git")).
Proof.
  apply (extractGithubRepo_owner_repo "https://" "G" "oogleChromeLabs" "i"
           "ntersection-observer.git" "");
    [by_evaluation|by_evaluation|by_evaluation|exact I].
Defined.

(** The sample timestamps are read back as written. *)
Lemma readStamp_stamp t : Samples.readStamp (Samples.stamp t) = Some t.
Proof.
  unfold Samples.readStamp, Samples.stamp.
  change (Ascii.eqb "T" "T") with true. cbv iota.
  now rewrite NilEmpty.isi, DecimalZ.of_to.
Qed.

Lemma stamp_nonempty t : Samples.stamp t <> "".
Proof. discriminate. Qed.

(** With [--force] both sample packages are fetched: the result has their
    two names. *)
Lemma fetchAllStats_entries_sample :
  exists stats,
    fetchAllStats true Samples.readStamp Samples.stamp Samples.busyApi 0
      ["intersection-observer"; "scheduler-polyfill"] Samples.existingStats
    = Done stats /\
    dom stats =
    dom Samples.existingStats ∪
    list_to_set
      (packagesToRefresh true Samples.readStamp 0
         ["intersection-observer"; "scheduler-polyfill"] Samples.existingStats).
Proof.
  apply (fetchAllStats_entries true Samples.readStamp Samples.stamp Samples.busyApi
           0 ["intersection-observer"; "scheduler-polyfill"] Samples.existingStats).
  intros p _. apply busyApi_answers.
Defined.

(** With [--force] the count of the sample package is fetched anew, behind a
    rate limit. *)
Lemma fetchAllStats_writes_entry_sample :
  exists stats t,
    fetchAllStats true Samples.readStamp Samples.stamp Samples.busyApi 0
      ["intersection-observer"; "scheduler-polyfill"] Samples.existingStats
    = Done stats /\
    (0 <= t)%Z /\
    stats !! "intersection-observer" =
    Some (Entry {| downloads :=
                     match fst (fetchPackageStats
                                  (Samples.busyApi "intersection-observer") 0 0) with
                     | Count count => Some count
                     | _ => None
                     end;
                   lastModified := Some (Samples.stamp t) |}).
Proof.
  apply (fetchAllStats_writes_entry true Samples.readStamp Samples.stamp
           Samples.busyApi 0 ["intersection-observer"; "scheduler-polyfill"]
           Samples.existingStats "intersection-observer").
  - intros p _. apply busyApi_answers.
  - by_evaluation.
  - left. exists 5300%Z. reflexivity.
Defined.

(** The package that the registry does not know is recorded and left alone
    for a week. *)
Lemma refreshed_package_rests_a_week_sample :
  exists stats,
    fetchAllStats true Samples.readStamp Samples.stamp Samples.busyApi 0
      ["intersection-observer"; "scheduler-polyfill"] Samples.existingStats
    = Done stats /\
    needsRefresh false Samples.readStamp 604800000 "scheduler-polyfill" stats = false.
Proof.
  apply (refreshed_package_rests_a_week true Samples.readStamp Samples.stamp
           Samples.busyApi 0 604800000 ["intersection-observer"; "scheduler-polyfill"]
           Samples.existingStats "scheduler-polyfill").
  - exact readStamp_stamp.
  - exact stamp_nonempty.
  - intros p _. apply busyApi_answers.
  - by_evaluation.
  - right. split; reflexivity.
  - vm_compute. discriminate.
Defined.

(** With [--force] and a registry that answers 404, the record that exists
    is kept and the unknown package gets a record without a count. *)
Lemma failed_fetch_keeps_truthy_value_sample :
  exists stats,
    fetchAllStats true Samples.Date_parse Samples.toISOString Samples.npmApi 0
      ["intersection-observer"; "scheduler-polyfill"] Samples.existingStats
    = Done stats /\
    stats !! "intersection-observer" =
    Some (Entry {| downloads := Some 1200%Z;
                   lastModified := Some "1970-01-01T00:00:00.000Z" |}) /\
    (forall p entry,
       stats !! p = Some (Entry entry) ->
       downloads entry = None ->
       Samples.existingStats !! p = Some (Entry entry) \/
       Samples.existingStats !! p = None \/
       Samples.existingStats !! p = Some (Legacy 0)).
Proof.
  apply (failed_fetch_keeps_truthy_value true Samples.Date_parse Samples.toISOString
           Samples.npmApi 0 ["intersection-observer"; "scheduler-polyfill"]
           Samples.existingStats "intersection-observer").
  - intros p _. now rewrite npmApi_answers.
  - reflexivity.
  - reflexivity.
  - reflexivity.
Defined.

(** A registry whose documents have no [downloads] loses the run at the
    first package. *)
Lemma fetchAllStats_throws_sample :
  fetchAllStats true Samples.Date_parse Samples.toISOString Samples.emptyApi 0
    ["intersection-observer"; "scheduler-polyfill"] Samples.existingStats
  = Fatal "TypeError: Cannot read properties of undefined (reading 'toLocaleString')".
Proof. vm_compute. reflexivity. Qed.

Lemma escapeHtml_no_markup_sample :
  "&"%char <> "<"%char /\ "&"%char <> ">"%char /\
  "&"%char <> "034"%char /\ "&"%char <> "'"%char.
Proof.
  apply (escapeHtml_no_markup (Some "<b>") "&"). vm_compute. left. reflexivity.
Defined.

Lemma escapeHtml_distinguishes_sample :
  Explorer.escapeHtml (Some "<") <> Explorer.escapeHtml (Some "&lt;").
Proof. apply (escapeHtml_distinguishes "<" "&lt;"). discriminate. Defined.

Lemma getMDNSlug_both_url_forms_sample :
  CompatData.getMDNSlug Samples.webFeatures
    (Samples.compatTree "https://developer.mozilla.org/en-US/docs/Web/API/IntersectionObserver")
    "intersection-observer"
  = Some "Web/API/IntersectionObserver".
Proof.
  apply (getMDNSlug_both_url_forms Samples.webFeatures
           (Samples.compatTree
              "https://developer.mozilla.org/en-US/docs/Web/API/IntersectionObserver")
           "intersection-observer" "api.IntersectionObserver" []
           (CompatData.Ident
              (Some {| CompatData.mdn_url :=
                         Some "https://developer.mozilla.org/en-US/docs/Web/API/IntersectionObserver" |})
              [])
           "Web/API/IntersectionObserver");
    [reflexivity|discriminate|reflexivity|left; reflexivity].
Defined.

Lemma getMDNSlug_other_url_kept_sample :
  CompatData.getMDNSlug Samples.webFeatures
    (Samples.compatTree "https://developer.mozilla.org/fr/docs/Web/API/IntersectionObserver")
    "intersection-observer"
  = Some "https://developer.mozilla.org/fr/docs/Web/API/IntersectionObserver".
Proof.
  apply (getMDNSlug_other_url_kept Samples.webFeatures
           (Samples.compatTree
              "https://developer.mozilla.org/fr/docs/Web/API/IntersectionObserver")
           "intersection-observer" "api.IntersectionObserver" []
           (CompatData.Ident
              (Some {| CompatData.mdn_url :=
                         Some "https://developer.mozilla.org/fr/docs/Web/API/IntersectionObserver" |})
              [])
           "https://developer.mozilla.org/fr/docs/Web/API/IntersectionObserver");
    [reflexivity|discriminate|reflexivity|reflexivity|discriminate|reflexivity|reflexivity].
Defined.

End MoreSampleRuns.
